(** * ZipRecruiter advertising metrics: attribution, budget allocation, ratios

    A shallow embedding of [ziprecruiter_ad_metrics.py]:
    - [ZipRecruiterAdMetrics]: the ratio metrics and their sentinel results;
    - [AttributionModel]: the five attribution policies;
    - [CampaignOptimizer.calculate_optimal_budget_allocation].

    Numbers.  Python's [float] is idealised as exact arithmetic: rationals
    ([Q], compared with [==]) wherever the source only adds, subtracts,
    multiplies, divides, compares and rounds, and real numbers ([R]) in
    [time_decay_attribution], whose [0.5 ** x] has a fractional exponent.
    [int] is [Z], [len] is [nat].  A Python exception is a [Raise] result.

    What the exact arithmetic leaves out.  An equality or a bound proved
    here holds of the floating-point code up to rounding.  The exact
    numbers have no [OverflowError] (an int too large for a float, a
    [0.5 ** x] too large, a date outside the calendar), so a statement that
    an operation returns is made under hypotheses that keep the code away
    from them ([moderate] arguments, a half-life above 0) or is conditional
    on the call returning.  A strict inequality between floats can be lost
    to rounding: [Binary64] runs [time_decay_attribution] on IEEE doubles
    to show it.

    Dictionaries.  A Python [dict] keeps its keys in insertion order, and
    [max(allocation.keys(), key=...)] depends on that order, so a dict is an
    association list with unique keys: assignment to a present key updates
    the entry in place, assignment to a new key appends it. *)

From Stdlib Require Import List String Bool Arith ZArith Permutation.
From Stdlib Require Import QArith Qround Qabs.
From Stdlib Require Import Reals Psatz.
From Stdlib Require Floats.
Import ListNotations.

Set Implicit Arguments.

(** ** Python runtime: exceptions and dictionaries *)

Module Py.

Inductive exn : Type :=
| ZeroDivisionError
| ValueError
| KeyError
| IndexError.

Inductive result (A : Type) : Type :=
| Ok (a : A)
| Raise (e : exn).
Arguments Ok {A} a.
Arguments Raise {A} e.

Definition bind {A B : Type} (m : result A) (k : A -> result B) : result B :=
  match m with
  | Ok a => k a
  | Raise e => Raise e
  end.

Definition raises {A : Type} (m : result A) : bool :=
  match m with
  | Ok _ => false
  | Raise _ => true
  end.

(** [for x in xs: body], where the body may raise. *)
Fixpoint mapM {A B : Type} (f : A -> result B) (xs : list A) : result (list B) :=
  match xs with
  | [] => Ok []
  | x :: xs' =>
      bind (f x) (fun y => bind (mapM f xs') (fun ys => Ok (y :: ys)))
  end.

Section Dict.
Variable V : Type.

Definition dict : Type := list (string * V).

Definition empty : dict := [].

(** [d.get(k)] *)
Fixpoint get (d : dict) (k : string) : option V :=
  match d with
  | [] => None
  | (k', v) :: d' => if String.eqb k k' then Some v else get d' k
  end.

(** [k in d] *)
Definition contains (d : dict) (k : string) : bool :=
  match get d k with
  | Some _ => true
  | None => false
  end.

(** [d[k] = v] *)
Fixpoint setitem (d : dict) (k : string) (v : V) : dict :=
  match d with
  | [] => [(k, v)]
  | (k', v') :: d' =>
      if String.eqb k k' then (k', v) :: d' else (k', v') :: setitem d' k v
  end.

(** [d[k]] on a [defaultdict]: the default when the key is missing. *)
Definition getdefault (dflt : V) (d : dict) (k : string) : V :=
  match get d k with
  | Some v => v
  | None => dflt
  end.

(** [d[k] += v] on a [defaultdict(float)], for the addition [add] and the
    default [zero] of the number type. *)
Definition additem (add : V -> V -> V) (zero : V)
           (d : dict) (k : string) (v : V) : dict :=
  setitem d k (add (getdefault zero d k) v).

Definition keys (d : dict) : list string := map fst d.
Definition values (d : dict) : list V := map snd d.

End Dict.

Arguments empty {V}.

End Py.

Import Py.

Notation "x <- m ;; k" := (Py.bind m (fun x => k))
  (at level 61, m at next level, right associativity).

(** Python's [sum(...)] over the rationals and the reals.  The arithmetic is
    exact, so the order in which the terms are added does not matter. *)
Definition Qsum (xs : list Q) : Q := fold_right Qplus 0%Q xs.
Definition Rsum (xs : list R) : R := fold_right Rplus 0%R xs.

(** [a / b] on floats: raises on a zero divisor. *)
Definition Qdiv_py (a b : Q) : result Q :=
  if Qeq_bool b 0 then Raise ZeroDivisionError else Ok (a / b)%Q.

Definition Rdiv_py (a b : R) : result R :=
  if Req_dec_T b 0 then Raise ZeroDivisionError else Ok (a / b)%R.

Definition Qlt_bool (a b : Q) : bool := negb (Qle_bool b a).

(** [xs[i]] for [0 <= i], and [xs[-i]] for [0 < i]: [IndexError] out of range. *)
Definition index {A : Type} (xs : list A) (i : nat) : result A :=
  match nth_error xs i with
  | Some x => Ok x
  | None => Raise IndexError
  end.

Definition index_neg {A : Type} (xs : list A) (i : nat) : result A :=
  if (List.length xs <? i)%nat then Raise IndexError else index xs (List.length xs - i).

(** [xs[a:-b]] for [0 <= a] and [0 < b]. *)
Definition slice {A : Type} (a b : nat) (xs : list A) : list A :=
  firstn (List.length xs - b - a) (skipn a xs).

(** [not xs] for a list. *)
Definition is_empty {A : Type} (xs : list A) : bool :=
  match xs with
  | [] => true
  | _ :: _ => false
  end.

(** [float(len(xs))] *)
Definition Qlen {A : Type} (xs : list A) : Q := inject_Z (Z.of_nat (List.length xs)).

(** [d[k]] on a plain dict: [KeyError] when the key is missing. *)
Definition getitem {V : Type} (d : dict V) (k : string) : result V :=
  match get d k with
  | Some v => Ok v
  | None => Raise KeyError
  end.

(** [[x for x in xs if p(x)]], where the condition may raise. *)
Fixpoint filterM {A : Type} (p : A -> result bool) (xs : list A) : result (list A) :=
  match xs with
  | [] => Ok []
  | x :: xs' =>
      b <- p x ;;
      rest <- filterM p xs' ;;
      Ok (if b then x :: rest else rest)
  end.

(** [int(x)] on a float: truncation towards zero. *)
Definition int_py (x : Q) : Z := Z.quot (Qnum x) (Zpos (Qden x)).

(** A [datetime] is an instant in microseconds; [timedelta(days=d)]. *)
Definition timedelta_days (d : Z) : Z := (d * 86400000000)%Z.



(** ** [EmployerSubscription] and [ZipRecruiterAdMetrics] *)

Module Metrics.

Local Open Scope string_scope.
Local Open Scope Q_scope.

(** A returned number: a finite value or [float('inf')]. *)
Inductive pyfloat : Type :=
| Fin (q : Q)
| Inf.

(** An f-string, kept as its pieces: literal text and formatted numbers
    ([Fixed n x] is [{x:.nf}], [Grouped n x] is [{x:,.nf}], [Plain x] is
    [{x}], [Str s] is [{s}] for a string). *)
Inductive piece : Type :=
| Lit (s : string)
| Str (s : string)
| Fixed (digits : nat) (x : Q)
| Grouped (digits : nat) (x : Q)
| Plain (x : Q).

Definition message : Type := list piece.

Record EmployerSubscription : Type := {
  tier : string;
  monthly_price : Q;
  avg_lifetime_months : Q;
  typical_jobs_posted : Z
}.

Definition get_tiers : dict EmployerSubscription :=
  [ ("basic", Build_EmployerSubscription "Basic" 299 6 1);
    ("pro", Build_EmployerSubscription "Pro" 599 12 5);
    ("enterprise", Build_EmployerSubscription "Enterprise" 999 18 20) ].

Definition subscriptions : dict EmployerSubscription := get_tiers.

Definition _set_industry_benchmarks : dict (dict Q) :=
  [ ("ctr", [("poor", 5 # 1000); ("average", 15 # 1000);
             ("good", 3 # 100); ("excellent", 5 # 100)]);
    ("cvr", [("poor", 5 # 1000); ("average", 15 # 1000);
             ("good", 3 # 100); ("excellent", 5 # 100)]);
    ("cac", [("poor", 1500); ("average", 800);
             ("good", 500); ("excellent", 300)]);
    ("roas", [("poor", 15 # 10); ("average", 3);
              ("good", 5); ("excellent", 8)]);
    ("ltv_cac_ratio", [("poor", 1); ("average", 2);
                       ("good", 3); ("excellent", 5)]) ].

Definition industry_benchmarks : dict (dict Q) := _set_industry_benchmarks.

(** [self.industry_benchmarks[metric][level]] *)
Definition benchmark (metric level : string) : result Q :=
  b <- getitem industry_benchmarks metric ;; getitem b level.

Definition calculate_roas (revenue ad_spend : Q) : result (pyfloat * message) :=
  if Qeq_bool ad_spend 0 then
    Ok (Fin 0, [Lit "Cannot calculate ROAS with zero ad spend"])
  else
    roas <- Qdiv_py revenue ad_spend ;;
    poor <- benchmark "roas" "poor" ;;
    if Qlt_bool roas poor then
      Ok (Fin roas, [Lit "Poor ROAS ("; Fixed 2 roas;
                     Lit "x): Campaign is unprofitable. Consider pausing."])
    else
      average <- benchmark "roas" "average" ;;
      if Qlt_bool roas average then
        Ok (Fin roas, [Lit "Below average ROAS ("; Fixed 2 roas;
                       Lit "x): Needs optimization."])
      else
        good <- benchmark "roas" "good" ;;
        if Qlt_bool roas good then
          Ok (Fin roas, [Lit "Average ROAS ("; Fixed 2 roas;
                         Lit "x): Acceptable but room for improvement."])
        else
          excellent <- benchmark "roas" "excellent" ;;
          if Qlt_bool roas excellent then
            Ok (Fin roas, [Lit "Good ROAS ("; Fixed 2 roas;
                           Lit "x): Strong performance."])
          else
            Ok (Fin roas, [Lit "Excellent ROAS ("; Fixed 2 roas;
                           Lit "x): Top-tier campaign performance!"]).

Definition calculate_roi (revenue total_cost : Q) : result (pyfloat * message) :=
  if Qeq_bool total_cost 0 then
    Ok (Fin 0, [Lit "Cannot calculate ROI with zero cost"])
  else
    r <- Qdiv_py (revenue - total_cost) total_cost ;;
    let roi := r * 100 in
    let interpretation :=
      if Qlt_bool roi 0 then
        [Lit "Negative ROI ("; Fixed 1 roi; Lit "%): Campaign is losing money."]
      else if Qlt_bool roi 100 then
        [Lit "Low ROI ("; Fixed 1 roi; Lit "%): Barely profitable."]
      else if Qlt_bool roi 300 then
        [Lit "Moderate ROI ("; Fixed 1 roi; Lit "%): Acceptable returns."]
      else if Qlt_bool roi 1000 then
        [Lit "Good ROI ("; Fixed 1 roi; Lit "%): Strong performance."]
      else
        [Lit "Exceptional ROI ("; Fixed 1 roi; Lit "%): Outstanding returns!"] in
    Ok (Fin roi, interpretation).

Definition calculate_cpa (ad_spend : Q) (conversions : Z) : result (pyfloat * message) :=
  if Z.eqb conversions 0 then
    Ok (Inf, [Lit "No conversions to calculate CPA"])
  else
    cpa <- Qdiv_py ad_spend (inject_Z conversions) ;;
    poor <- benchmark "cac" "poor" ;;
    if Qlt_bool poor cpa then
      Ok (Fin cpa, [Lit "High CPA ($"; Fixed 2 cpa;
                    Lit "): Too expensive, needs immediate attention."])
    else
      average <- benchmark "cac" "average" ;;
      if Qlt_bool average cpa then
        Ok (Fin cpa, [Lit "Above average CPA ($"; Fixed 2 cpa;
                      Lit "): Consider optimization."])
      else
        good <- benchmark "cac" "good" ;;
        if Qlt_bool good cpa then
          Ok (Fin cpa, [Lit "Average CPA ($"; Fixed 2 cpa;
                        Lit "): Acceptable acquisition cost."])
        else
          Ok (Fin cpa, [Lit "Excellent CPA ($"; Fixed 2 cpa;
                        Lit "): Very efficient acquisition!"]).

Definition calculate_cpm (ad_spend : Q) (impressions : Z) : result (pyfloat * message) :=
  if Z.eqb impressions 0 then
    Ok (Fin 0, [Lit "No impressions to calculate CPM"])
  else
    r <- Qdiv_py ad_spend (inject_Z impressions) ;;
    let cpm := r * 1000 in
    let interpretation :=
      if Qlt_bool cpm 5 then
        [Lit "Low CPM ($"; Fixed 2 cpm; Lit "): Great reach efficiency."]
      else if Qlt_bool cpm 15 then
        [Lit "Average CPM ($"; Fixed 2 cpm; Lit "): Standard pricing."]
      else if Qlt_bool cpm 30 then
        [Lit "High CPM ($"; Fixed 2 cpm;
         Lit "): Premium targeting or competitive market."]
      else
        [Lit "Very high CPM ($"; Fixed 2 cpm; Lit "): Consider broader targeting."] in
    Ok (Fin cpm, interpretation).

Definition calculate_cpc (ad_spend : Q) (clicks : Z) : result (pyfloat * message) :=
  if Z.eqb clicks 0 then
    Ok (Fin 0, [Lit "No clicks to calculate CPC"])
  else
    cpc <- Qdiv_py ad_spend (inject_Z clicks) ;;
    let interpretation :=
      if Qlt_bool cpc 2 then
        [Lit "Low CPC ($"; Fixed 2 cpc; Lit "): Excellent click cost."]
      else if Qlt_bool cpc 5 then
        [Lit "Average CPC ($"; Fixed 2 cpc;
         Lit "): Standard for recruitment industry."]
      else if Qlt_bool cpc 10 then
        [Lit "High CPC ($"; Fixed 2 cpc; Lit "): Competitive keywords."]
      else
        [Lit "Very high CPC ($"; Fixed 2 cpc; Lit "): Consider long-tail keywords."] in
    Ok (Fin cpc, interpretation).

Definition calculate_ctr (clicks impressions : Z) : result (pyfloat * message) :=
  if Z.eqb impressions 0 then
    Ok (Fin 0, [Lit "No impressions to calculate CTR"])
  else
    r <- Qdiv_py (inject_Z clicks) (inject_Z impressions) ;;
    let ctr := r * 100 in
    benchmarks <- getitem industry_benchmarks "ctr" ;;
    poor <- getitem benchmarks "poor" ;;
    if Qlt_bool ctr (poor * 100) then
      Ok (Fin ctr, [Lit "Poor CTR ("; Fixed 2 ctr;
                    Lit "%): Ad creative needs improvement."])
    else
      average <- getitem benchmarks "average" ;;
      if Qlt_bool ctr (average * 100) then
        Ok (Fin ctr, [Lit "Below average CTR ("; Fixed 2 ctr;
                      Lit "%): Consider A/B testing."])
      else
        good <- getitem benchmarks "good" ;;
        if Qlt_bool ctr (good * 100) then
          Ok (Fin ctr, [Lit "Good CTR ("; Fixed 2 ctr;
                        Lit "%): Engaging ad creative."])
        else
          Ok (Fin ctr, [Lit "Excellent CTR ("; Fixed 2 ctr;
                        Lit "%): Highly relevant targeting!"]).

Definition calculate_cvr (conversions clicks : Z) : result (pyfloat * message) :=
  if Z.eqb clicks 0 then
    Ok (Fin 0, [Lit "No clicks to calculate conversion rate"])
  else
    r <- Qdiv_py (inject_Z conversions) (inject_Z clicks) ;;
    let cvr := r * 100 in
    benchmarks <- getitem industry_benchmarks "cvr" ;;
    poor <- getitem benchmarks "poor" ;;
    if Qlt_bool cvr (poor * 100) then
      Ok (Fin cvr, [Lit "Poor CVR ("; Fixed 2 cvr;
                    Lit "%): Landing page needs optimization."])
    else
      average <- getitem benchmarks "average" ;;
      if Qlt_bool cvr (average * 100) then
        Ok (Fin cvr, [Lit "Below average CVR ("; Fixed 2 cvr;
                      Lit "%): Review user experience."])
      else
        good <- getitem benchmarks "good" ;;
        if Qlt_bool cvr (good * 100) then
          Ok (Fin cvr, [Lit "Good CVR ("; Fixed 2 cvr;
                        Lit "%): Solid conversion funnel."])
        else
          Ok (Fin cvr, [Lit "Excellent CVR ("; Fixed 2 cvr;
                        Lit "%): Outstanding optimization!"]).

Definition calculate_ltv (subscription_tier : string) (retention_modifier : Q)
  : result (pyfloat * message) :=
  if negb (contains subscriptions subscription_tier) then
    Ok (Fin 0, [Lit "Invalid subscription tier"])
  else
    sub <- getitem subscriptions subscription_tier ;;
    let ltv := monthly_price sub * avg_lifetime_months sub * retention_modifier in
    Ok (Fin ltv,
        [Str (tier sub); Lit " tier LTV: $"; Grouped 2 ltv; Lit " (";
         Fixed 1 (avg_lifetime_months sub * retention_modifier);
         Lit " months @ $"; Plain (monthly_price sub); Lit "/month)"]).

Definition calculate_cac (total_acquisition_cost : Q) (new_customers : Z)
  : result (pyfloat * message) :=
  if Z.eqb new_customers 0 then
    Ok (Inf, [Lit "No customers acquired"])
  else
    cac <- Qdiv_py total_acquisition_cost (inject_Z new_customers) ;;
    poor <- benchmark "cac" "poor" ;;
    if Qlt_bool poor cac then
      Ok (Fin cac, [Lit "High CAC ($"; Fixed 2 cac;
                    Lit "): Unsustainable acquisition cost."])
    else
      average <- benchmark "cac" "average" ;;
      if Qlt_bool average cac then
        Ok (Fin cac, [Lit "Above average CAC ($"; Fixed 2 cac;
                      Lit "): Needs efficiency improvements."])
      else
        good <- benchmark "cac" "good" ;;
        if Qlt_bool good cac then
          Ok (Fin cac, [Lit "Acceptable CAC ($"; Fixed 2 cac;
                        Lit "): Room for optimization."])
        else
          Ok (Fin cac, [Lit "Excellent CAC ($"; Fixed 2 cac;
                        Lit "): Very efficient acquisition!"]).

Definition calculate_mer (total_revenue total_ad_spend : Q)
  : result (pyfloat * message) :=
  if Qeq_bool total_ad_spend 0 then
    Ok (Fin 0, [Lit "Cannot calculate MER with zero ad spend"])
  else
    mer <- Qdiv_py total_revenue total_ad_spend ;;
    let interpretation :=
      if Qlt_bool mer 2 then
        [Lit "Low MER ("; Fixed 2 mer; Lit "x): Overall marketing needs review."]
      else if Qlt_bool mer 4 then
        [Lit "Average MER ("; Fixed 2 mer;
         Lit "x): Acceptable blended performance."]
      else if Qlt_bool mer 6 then
        [Lit "Good MER ("; Fixed 2 mer; Lit "x): Strong overall efficiency."]
      else
        [Lit "Excellent MER ("; Fixed 2 mer;
         Lit "x): Outstanding marketing performance!"] in
    Ok (Fin mer, interpretation).

Definition calculate_breakeven_roas (profit_margin : Q) : result (pyfloat * message) :=
  if Qle_bool profit_margin 0 || Qlt_bool 1 profit_margin then
    Ok (Fin 0, [Lit "Invalid profit margin (must be between 0 and 1)"])
  else
    breakeven <- Qdiv_py 1 profit_margin ;;
    Ok (Fin breakeven,
        [Lit "Break-even ROAS: "; Fixed 2 breakeven; Lit "x (with ";
         Fixed 0 (profit_margin * 100); Lit "% margin). Target ";
         Fixed 1 (breakeven * 2); Lit "x+ for healthy profits."]).

End Metrics.

(** ** [AttributionModel] *)

Module Attribution.

Local Open Scope string_scope.

(** A touchpoint, with the keys [generate_customer_journey] gives it. *)
Record Touchpoint : Type := {
  touchpoint_id : Z;
  channel : string;
  timestamp : string;
  interaction : string;
  device : string
}.

(** [attribution[k] += v] on the [defaultdict(float)] of each policy. *)
Definition Qadditem : dict Q -> string -> Q -> dict Q := additem Qplus 0%Q.
Definition Radditem : dict R -> string -> R -> dict R := additem Rplus 0%R.

Definition last_click_attribution (touchpoints : list Touchpoint)
  : result (dict Q) :=
  if is_empty touchpoints then Ok empty
  else
    last_touchpoint <- index_neg touchpoints 1 ;;
    Ok [(channel last_touchpoint, 1%Q)].

Definition first_click_attribution (touchpoints : list Touchpoint)
  : result (dict Q) :=
  if is_empty touchpoints then Ok empty
  else
    first_touchpoint <- index touchpoints 0 ;;
    Ok [(channel first_touchpoint, 1%Q)].

Definition linear_attribution (touchpoints : list Touchpoint)
  : result (dict Q) :=
  if is_empty touchpoints then Ok empty
  else
    credit_per_touch <- Qdiv_py 1 (Qlen touchpoints) ;;
    Ok (fold_left
          (fun attribution touchpoint =>
             Qadditem attribution (channel touchpoint) credit_per_touch)
          touchpoints empty).

(** The weight of position [i] among [n] touchpoints:
    [0.5 ** ((n - i - 1) / half_life_days)]. *)
Definition decay_weight (n : nat) (half_life_days : R) (i : nat) : result R :=
  let days_before_conversion := (n - i - 1)%nat in
  e <- Rdiv_py (INR days_before_conversion) half_life_days ;;
  Ok (Rpower (1 / 2) e).

Definition time_decay_attribution (touchpoints : list Touchpoint)
           (half_life_days : R) : result (dict R) :=
  if is_empty touchpoints then Ok empty
  else
    weights <- mapM (decay_weight (List.length touchpoints) half_life_days)
                    (seq 0 (List.length touchpoints)) ;;
    let total_weight := Rsum weights in
    normalized_weights <- mapM (fun w => Rdiv_py w total_weight) weights ;;
    Ok (fold_left
          (fun attribution tw =>
             Radditem attribution (channel (fst tw)) (snd tw))
          (combine touchpoints normalized_weights) empty).

Definition default_half_life_days : R := 7%R.

Definition u_shaped_attribution (touchpoints : list Touchpoint)
           (first_last_weight : Q) : result (dict Q) :=
  if is_empty touchpoints then Ok empty
  else
    let attribution : dict Q := empty in
    if (List.length touchpoints =? 1)%nat then
      t0 <- index touchpoints 0 ;;
      Ok (setitem attribution (channel t0) 1%Q)
    else if (List.length touchpoints =? 2)%nat then
      t0 <- index touchpoints 0 ;;
      let attribution := setitem attribution (channel t0) (1 # 2)%Q in
      t1 <- index touchpoints 1 ;;
      Ok (setitem attribution (channel t1) (1 # 2)%Q)
    else
      t0 <- index touchpoints 0 ;;
      let attribution := setitem attribution (channel t0) first_last_weight in
      tl <- index_neg touchpoints 1 ;;
      let attribution := setitem attribution (channel tl) first_last_weight in
      middle_credit <- Qdiv_py (1 - 2 * first_last_weight)%Q
                               (Qlen touchpoints - 2)%Q ;;
      Ok (fold_left
            (fun attribution touchpoint =>
               Qadditem attribution (channel touchpoint) middle_credit)
            (slice 1 1 touchpoints) attribution).

Definition default_first_last_weight : Q := (4 # 10)%Q.

(** [apply_lookback_window], for a parser [fromisoformat] of timestamps:
    [datetime.fromisoformat] is a library function, taken as a parameter. *)
Section Lookback.
Variable fromisoformat : string -> result Z.

Definition within_window (cutoff_date : Z) (tp : Touchpoint) : result bool :=
  t <- fromisoformat (timestamp tp) ;;
  Ok (cutoff_date <=? t)%Z.

Definition apply_lookback_window (lookback_window : Z)
           (touchpoints : list Touchpoint) (conversion_date : Z)
  : result (list Touchpoint) :=
  let cutoff_date := (conversion_date - timedelta_days lookback_window)%Z in
  let valid_touchpoints := filterM (within_window cutoff_date) touchpoints in
  valid_touchpoints.

End Lookback.

End Attribution.

(** ** [CampaignOptimizer.calculate_optimal_budget_allocation] *)

Module Optimizer.

Local Open Scope string_scope.
Local Open Scope Q_scope.

(** [max(a, b)] and [min(a, b)]: the first argument wins a tie. *)
Definition Qmax_py (a b : Q) : Q := if Qlt_bool a b then b else a.
Definition Qmin_py (a b : Q) : Q := if Qlt_bool b a then b else a.

(** Rounding of an exact value to the nearest integer, ties to even. *)
Definition round_half_even (x : Q) : Z :=
  let f := Qfloor x in
  let r := x - inject_Z f in
  if Qlt_bool r (1 # 2) then f
  else if Qlt_bool (1 # 2) r then (f + 1)%Z
  else if Z.even f then f else (f + 1)%Z.

(** [round(x, ndigits)] *)
Definition round (x : Q) (ndigits : nat) : Q :=
  let scale := inject_Z (10 ^ Z.of_nat ndigits) in
  inject_Z (round_half_even (x * scale)) / scale.

(** One entry of the returned allocation. *)
Record Allocation : Type := {
  budget : Q;
  percentage : Q;
  efficiency_score : Q
}.

(** [(roas * 0.5) + (cvr * 100 * 0.3) + (volume_potential * 0.2)], each
    factor read with [perf.get(key, default)]. *)
Definition efficiency (perf : dict Q) : Q :=
  let roas := getdefault 1 perf "roas" in
  let cvr := getdefault (1 # 100) perf "cvr" in
  let volume_potential := getdefault 1 perf "volume_potential" in
  (roas * (5 # 10)) + (cvr * 100 * (3 # 10)) + (volume_potential * (2 # 10)).

(** The first loop: [efficiency_scores] and [total_score]. *)
Definition score_channels (channel_performance : dict (dict Q)) : dict Q * Q :=
  fold_left
    (fun acc cp =>
       let efficiency_scores := fst acc in
       let total_score := snd acc in
       let e := efficiency (snd cp) in
       (setitem efficiency_scores (fst cp) e, total_score + e))
    channel_performance (empty, 0).

(** [channel_budget] after the base allocation and the two constraints. *)
Definition constrained_budget (total_budget total_score score : Q) : result Q :=
  r <- Qdiv_py score total_score ;;
  let channel_budget := r * total_budget in
  let channel_budget := Qmax_py (total_budget * (10 # 100)) channel_budget in
  let channel_budget := Qmin_py (total_budget * (40 # 100)) channel_budget in
  Ok channel_budget.

(** The body of the second loop for one channel. *)
Definition allocate_channel (total_budget total_score score : Q)
  : result Allocation :=
  channel_budget <- constrained_budget total_budget total_score score ;;
  p <- Qdiv_py channel_budget total_budget ;;
  Ok {| budget := round channel_budget 2;
        percentage := round (p * 100) 1;
        efficiency_score := round score 2 |}.

(** The second loop: the allocation before the correction of the total. *)
Definition proportional_allocation (total_budget : Q)
           (channel_performance : dict (dict Q)) : result (dict Allocation) :=
  let efficiency_scores := fst (score_channels channel_performance) in
  let total_score := snd (score_channels channel_performance) in
  fold_left
    (fun acc cs =>
       allocation <- acc ;;
       a <- allocate_channel total_budget total_score (snd cs) ;;
       Ok (setitem allocation (fst cs) a))
    efficiency_scores (Ok empty).

(** [max(items, key=...)]: the first item with the largest key value;
    [ValueError] on an empty sequence. *)
Fixpoint max_from {A : Type} (key : A -> Q) (best : A) (xs : list A) : A :=
  match xs with
  | [] => best
  | x :: xs' => max_from key (if Qlt_bool (key best) (key x) then x else best) xs'
  end.

Definition max_by {A : Type} (key : A -> Q) (xs : list A) : result A :=
  match xs with
  | [] => Raise ValueError
  | x :: xs' => Ok (max_from key x xs')
  end.

(** [allocation[k]['budget'] += delta] *)
Definition add_budget (allocation : dict Allocation) (k : string) (delta : Q)
  : result (dict Allocation) :=
  a <- getitem allocation k ;;
  Ok (setitem allocation k
        {| budget := budget a + delta;
           percentage := percentage a;
           efficiency_score := efficiency_score a |}).

Definition total_allocated (allocation : dict Allocation) : Q :=
  Qsum (map budget (values allocation)).

(** [allocation[k]] is looked up for the keys of [allocation] itself, so
    the maximum over the keys by [allocation[k]['budget']] is the key of
    the first entry with the largest budget. *)
Definition calculate_optimal_budget_allocation (total_budget : Q)
           (channel_performance : dict (dict Q)) : result (dict Allocation) :=
  allocation <- proportional_allocation total_budget channel_performance ;;
  if negb (Qeq_bool (total_allocated allocation) total_budget) then
    largest <- max_by (fun ka => budget (snd ka)) allocation ;;
    add_budget allocation (fst largest)
               (total_budget - total_allocated allocation)
  else
    Ok allocation.




(** [implement_frequency_capping]: an entry of the result is a dict with
    'status' either 'capped' (with 'impressions', 'cap', 'action') or
    'active' (with 'impressions', 'remaining', 'action'). *)
Inductive CapEntry : Type :=
| capped (impressions cap : Z) (action : string)
| active (impressions remaining : Z) (action : Metrics.message).

Definition implement_frequency_capping (user_impressions : dict (dict Z))
           (cap_per_week : Z) : dict CapEntry :=
  fold_left
    (fun capped_users ui =>
       let user_id := fst ui in
       let impressions := snd ui in
       let weekly_impressions := getdefault 0%Z impressions "week_total" in
       if (cap_per_week <=? weekly_impressions)%Z then
         setitem capped_users user_id
           (capped weekly_impressions cap_per_week
                   "Exclude from targeting for remainder of week")
       else
         let remaining := (cap_per_week - weekly_impressions)%Z in
         setitem capped_users user_id
           (active weekly_impressions remaining
                   [Metrics.Lit "Can show "; Metrics.Plain (inject_Z remaining);
                    Metrics.Lit " more impressions this week"]))
    user_impressions empty.

End Optimizer.

(** ** [CampaignSimulator] *)

Module Simulator.

Local Open Scope string_scope.
Local Open Scope Q_scope.

(** The characteristics of a channel. *)
Record ChannelProfile : Type := {
  cpm : Q;
  ctr : Q;
  cvr : Q;
  audience_quality : string;
  typical_tier : string
}.

Definition _define_channels : dict ChannelProfile :=
  [ ("google_ads", Build_ChannelProfile 8 (25 # 1000) (3 # 100) "high" "pro");
    ("facebook", Build_ChannelProfile 5 (15 # 1000) (2 # 100) "medium" "basic");
    ("linkedin", Build_ChannelProfile 15 (2 # 100) (4 # 100) "premium" "enterprise");
    ("programmatic", Build_ChannelProfile 3 (8 # 1000) (1 # 100) "low" "basic") ].

Definition channels : dict ChannelProfile := _define_channels.

(** One row of the returned data frame. *)
Module Row.
Record t : Type := {
  day : Z;
  date : Z;
  channel : string;
  spend : Q;
  impressions : Z;
  clicks : Z;
  conversions : Z;
  revenue : Q;
  cpm : Q;
  cpc : Q;
  ctr : Q;
  cvr : Q;
  roas : Q
}.
End Row.

(** [a / b if guard else 0] *)
Definition guarded_div (guard : bool) (a b : Q) : result Q :=
  if guard then Qdiv_py a b else Ok 0.

(** The body of the loop of [simulate_campaign] for one [day].  The draws
    of [np.random.normal(1.0, 0.15)] and the readings of [datetime.now()]
    are given as the sequences [noise] and [now], indexed by the call. *)
Definition simulate_day (noise : nat -> Q) (now : nat -> Z)
           (channel : string) (ch : ChannelProfile) (budget : Q) (days : Z)
           (day : nat) : result Row.t :=
  let day_of_week := (day mod 7)%nat in
  let performance_modifier :=
    if ((day_of_week =? 5) || (day_of_week =? 6))%nat then 6 # 10
    else if (day_of_week =? 1)%nat then 12 # 10
    else 1 in
  let performance_modifier := performance_modifier * noise day in
  daily_budget <- Qdiv_py budget (inject_Z days) ;;
  r <- Qdiv_py daily_budget (cpm ch) ;;
  let impressions := int_py (r * 1000 * performance_modifier) in
  let clicks := int_py (inject_Z impressions * ctr ch * performance_modifier) in
  let conversions := int_py (inject_Z clicks * cvr ch * performance_modifier) in
  let tier := typical_tier ch in
  sub <- getitem Metrics.subscriptions tier ;;
  let revenue := inject_Z conversions * Metrics.monthly_price sub
                 * Metrics.avg_lifetime_months sub in
  row_cpm <- (if (0 <? impressions)%Z then
                c <- Qdiv_py daily_budget (inject_Z impressions) ;;
                Ok (c * 1000)
              else Ok 0) ;;
  row_cpc <- guarded_div (0 <? clicks)%Z daily_budget (inject_Z clicks) ;;
  row_ctr <- guarded_div (0 <? impressions)%Z (inject_Z clicks) (inject_Z impressions) ;;
  row_cvr <- guarded_div (0 <? clicks)%Z (inject_Z conversions) (inject_Z clicks) ;;
  row_roas <- guarded_div (Qlt_bool 0 daily_budget) revenue daily_budget ;;
  Ok {| Row.day := Z.of_nat day + 1;
        Row.date := (now day - timedelta_days (days - Z.of_nat day))%Z;
        Row.channel := channel;
        Row.spend := daily_budget;
        Row.impressions := impressions;
        Row.clicks := clicks;
        Row.conversions := conversions;
        Row.revenue := revenue;
        Row.cpm := row_cpm;
        Row.cpc := row_cpc;
        Row.ctr := row_ctr;
        Row.cvr := row_cvr;
        Row.roas := row_roas |}.

Definition simulate_campaign (noise : nat -> Q) (now : nat -> Z)
           (channel : string) (budget : Q) (days : Z) : result (list Row.t) :=
  if negb (contains channels channel) then Raise ValueError
  else
    ch <- getitem channels channel ;;
    mapM (simulate_day noise now channel ch budget days) (seq 0 (Z.to_nat days)).

(** The loop of [simulate_multi_channel_campaign]: the campaigns draw from
    the same sequences one after the other, the next one starting at
    [offset]. *)
Fixpoint simulate_channels (noise : nat -> Q) (now : nat -> Z)
         (budget_allocation : list (string * Q)) (days : Z) (offset : nat)
  : result (list (list Row.t)) :=
  match budget_allocation with
  | [] => Ok []
  | (channel, budget) :: rest =>
      campaign_data <- simulate_campaign (fun i => noise (offset + i)%nat)
                                         (fun i => now (offset + i)%nat)
                                         channel budget days ;;
      all_results <- simulate_channels noise now rest days
                                       (offset + Z.to_nat days) ;;
      Ok (campaign_data :: all_results)
  end.

(** [pd.concat] raises [ValueError] on an empty list of frames. *)
Definition simulate_multi_channel_campaign (noise : nat -> Q) (now : nat -> Z)
           (budget_allocation : dict Q) (days : Z) : result (list Row.t) :=
  all_results <- simulate_channels noise now budget_allocation days 0 ;;
  if is_empty all_results then Raise ValueError
  else Ok (List.concat all_results).

End Simulator.

(** ** The arithmetic of the source on IEEE doubles

    [time_decay_attribution] and [calculate_optimal_budget_allocation]
    once more, with Python's [float] as the binary64 numbers of the
    machine, to see where rounding changes what they return.  Every
    operation of the source is the IEEE operation, with two exceptions
    where the model is partial and answers [None] outside what it covers:
    - [0.5 ** x]: CPython hands it to C's [pow], which the model knows on
      the exponents where the result is fixed by the format itself;
    - [round(x, n)]: CPython rounds the exact value of the double to [n]
      decimals, ties to even, and returns the nearest double; the model
      covers the doubles whose scaled value stays below [2^53].
    [sum] is a builtin whose algorithm depends on the version of CPython,
    so the functions that call it take it as [sum_py]. *)

Module Binary64.

Import PrimFloat.
Local Open Scope string_scope.
Local Open Scope float_scope.
Local Set Warnings "-inexact-float".

Definition partial (A : Type) : Type := option (result A).

Definition bindP {A B : Type} (m : partial A) (k : A -> partial B) : partial B :=
  match m with
  | None => None
  | Some (Raise e) => Some (Raise e)
  | Some (Ok a) => k a
  end.

Notation "x <~ m ;; k" := (bindP m (fun x => k))
  (at level 61, m at next level, right associativity).

(** A computation of the source that is fully covered. *)
Definition covered {A : Type} (m : result A) : partial A := Some m.

(** [for x in xs: body], where the body may raise or leave the model. *)
Fixpoint mapP {A B : Type} (f : A -> partial B) (xs : list A)
  : partial (list B) :=
  match xs with
  | [] => Some (Ok [])
  | x :: xs' => y <~ f x ;; ys <~ mapP f xs' ;; Some (Ok (y :: ys))
  end.

(** [float(n)] for a length or an index, and for an int below [2^63]. *)
Definition of_nat (n : nat) : float := of_uint63 (Uint63.of_Z (Z.of_nat n)).

Definition of_Z (z : Z) : float :=
  if (z <? 0)%Z then - of_uint63 (Uint63.of_Z (- z))
  else of_uint63 (Uint63.of_Z z).

(** The integer that a double is, if it is one. *)
Definition integral (x : float) : option Z :=
  match FloatOps.Prim2SF x with
  | SpecFloat.S754_zero _ => Some 0%Z
  | SpecFloat.S754_finite s m e =>
      let sign := if s then (-1)%Z else 1%Z in
      if (0 <=? e)%Z then Some (sign * Zpos m * 2 ^ e)%Z
      else if (Zpos m mod 2 ^ (- e) =? 0)%Z
           then Some (sign * (Zpos m / 2 ^ (- e)))%Z
           else None
  | _ => None
  end.

(** The magnitude of a finite double as the rational number it is. *)
Definition magnitude (x : float) : option Q :=
  match FloatOps.Prim2SF x with
  | SpecFloat.S754_zero _ => Some 0%Q
  | SpecFloat.S754_finite _ m e => Some (inject_Z (Zpos m) * Qpower 2 e)%Q
  | _ => None
  end.

(** The finite double as a rational number, with its sign. *)
Definition exact (x : float) : option Q :=
  match magnitude x with
  | Some q => Some (if x <? 0 then (- q)%Q else q)
  | None => None
  end.

(** [a / b]: raises on a zero divisor. *)
Definition div_py (a b : float) : result float :=
  if b =? 0 then Raise ZeroDivisionError else Ok (a / b).

(** [max(a, b)] and [min(a, b)]: the first argument wins a tie. *)
Definition max_py (a b : float) : float := if a <? b then b else a.
Definition min_py (a b : float) : float := if b <? a then b else a.

(** [sum(xs)] up to CPython 3.11: additions from 0, left to right. *)
Definition sum (xs : list float) : float := fold_left add xs 0.

(** [sum(xs)] from CPython 3.12: the same additions, with the rounding
    error of each one collected and added at the end. *)
Definition sum_compensated (xs : list float) : float :=
  let step (sc : float * float) (x : float) :=
    let s := fst sc in
    let c := snd sc in
    let t := s + x in
    (t, if abs x <=? abs s then c + ((s - t) + x) else c + ((x - t) + s)) in
  let sc := fold_left step xs (0, 0) in
  let s := fst sc in
  let c := snd sc in
  if (c =? 0) || negb (abs c <? infinity) then s else s + c.

(** [round(x, ndigits)] *)
Definition round (x : float) (ndigits : nat) : option float :=
  match magnitude x with
  | None => Some x
  | Some q =>
      let scale := (10 ^ Z.of_nat ndigits)%Z in
      let k := Optimizer.round_half_even (q * inject_Z scale) in
      if (k <? 2 ^ 53)%Z then
        Some (if x <? 0 then - (of_Z k / of_Z scale) else of_Z k / of_Z scale)
      else None
  end.

(** *** [time_decay_attribution] *)

(** [x * 0.5] taken [k] times: exact down to the smallest subnormal
    [2^-1074], and 0 from there on (the tie at [2^-1075] goes to even). *)
Fixpoint halve (k : nat) (x : float) : float :=
  match k with
  | O => x
  | S k' => halve k' (x * 0.5)
  end.

(** [0.5 ** x] where the format fixes it:
    - an integer [x >= 0]: the power of two [2^-x], exact when it is
      representable and 0 below the subnormals;
    - [0 < x <= 2^-54]: the real [0.5^x] lies in [(1 - 2^-54, 1)], nearer
      to 1.0 than to any other double, so the result is 1.0.
    Any other exponent is outside the model. *)
Definition pow_half (x : float) : option float :=
  match integral x with
  | Some k =>
      if (0 <=? k)%Z then Some (halve (Z.to_nat (Z.min k 1075)) 1) else None
  | None =>
      if (0 <? x) && (x <=? 0x1p-54) then Some 1 else None
  end.

(** [0.5 ** (days_before_conversion / half_life_days)].  The half-life
    is a float here; an int half-life that is a double, like 7 or
    [10^17], divides to the same quotient. *)
Definition decay_weight (n : nat) (half_life_days : float) (i : nat)
  : partial float :=
  let days_before_conversion := (n - i - 1)%nat in
  e <~ covered (div_py (of_nat days_before_conversion) half_life_days) ;;
  option_map Ok (pow_half e).

Definition time_decay_attribution (sum_py : list float -> float)
           (touchpoints : list Attribution.Touchpoint)
           (half_life_days : float) : partial (dict float) :=
  if is_empty touchpoints then Some (Ok empty)
  else
    weights <~ mapP (decay_weight (List.length touchpoints) half_life_days)
                    (seq 0 (List.length touchpoints)) ;;
    let total_weight := sum_py weights in
    normalized_weights <~ covered (mapM (fun w => div_py w total_weight) weights) ;;
    Some (Ok (fold_left
                (fun attribution tw =>
                   additem add 0 attribution
                           (Attribution.channel (fst tw)) (snd tw))
                (combine touchpoints normalized_weights) empty)).

(** *** [calculate_optimal_budget_allocation] *)

Record Allocation : Type := {
  budget : float;
  percentage : float;
  efficiency_score : float
}.

Definition efficiency (perf : dict float) : float :=
  let roas := getdefault 1 perf "roas" in
  let cvr := getdefault 0.01 perf "cvr" in
  let volume_potential := getdefault 1 perf "volume_potential" in
  (roas * 0.5) + (cvr * 100 * 0.3) + (volume_potential * 0.2).

Definition score_channels (channel_performance : dict (dict float))
  : dict float * float :=
  fold_left
    (fun acc cp =>
       let efficiency_scores := fst acc in
       let total_score := snd acc in
       let e := efficiency (snd cp) in
       (setitem efficiency_scores (fst cp) e, total_score + e))
    channel_performance (empty, 0).

Definition allocate_channel (total_budget total_score score : float)
  : partial Allocation :=
  r <~ covered (div_py score total_score) ;;
  let channel_budget := r * total_budget in
  let channel_budget := max_py (total_budget * 0.10) channel_budget in
  let channel_budget := min_py (total_budget * 0.40) channel_budget in
  b <~ option_map Ok (round channel_budget 2) ;;
  p <~ covered (div_py channel_budget total_budget) ;;
  pc <~ option_map Ok (round (p * 100) 1) ;;
  es <~ option_map Ok (round score 2) ;;
  Some (Ok {| budget := b; percentage := pc; efficiency_score := es |}).

Definition proportional_allocation (total_budget : float)
           (channel_performance : dict (dict float)) : partial (dict Allocation) :=
  let efficiency_scores := fst (score_channels channel_performance) in
  let total_score := snd (score_channels channel_performance) in
  fold_left
    (fun acc cs =>
       allocation <~ acc ;;
       a <~ allocate_channel total_budget total_score (snd cs) ;;
       Some (Ok (setitem allocation (fst cs) a)))
    efficiency_scores (Some (Ok empty)).

Fixpoint max_from {A : Type} (key : A -> float) (best : A) (xs : list A) : A :=
  match xs with
  | [] => best
  | x :: xs' => max_from key (if key best <? key x then x else best) xs'
  end.

Definition max_by {A : Type} (key : A -> float) (xs : list A) : result A :=
  match xs with
  | [] => Raise ValueError
  | x :: xs' => Ok (max_from key x xs')
  end.

Definition add_budget (allocation : dict Allocation) (k : string) (delta : float)
  : result (dict Allocation) :=
  a <- getitem allocation k ;;
  Ok (setitem allocation k
        {| budget := budget a + delta;
           percentage := percentage a;
           efficiency_score := efficiency_score a |}).

Definition total_allocated (sum_py : list float -> float)
           (allocation : dict Allocation) : float :=
  sum_py (map budget (values allocation)).

Definition calculate_optimal_budget_allocation (sum_py : list float -> float)
           (total_budget : float) (channel_performance : dict (dict float))
  : partial (dict Allocation) :=
  allocation <~ proportional_allocation total_budget channel_performance ;;
  if negb (total_allocated sum_py allocation =? total_budget) then
    largest <~ covered (max_by (fun ka => budget (snd ka)) allocation) ;;
    covered (add_budget allocation (fst largest)
                        (total_budget - total_allocated sum_py allocation))
  else
    Some (Ok allocation).

End Binary64.

(** ** Vocabulary of the statements *)

Module Spec.

Import Attribution.

(** The channels of a touchpoint sequence, in order. *)
Definition channels (touchpoints : list Touchpoint) : list string :=
  map channel touchpoints.

(** How many touchpoints of the sequence are on channel [c]. *)
Definition count_channel (c : string) (touchpoints : list Touchpoint) : nat :=
  List.length (filter (fun t => String.eqb (channel t) c) touchpoints).

(** The credit that a list of (channel, weight) pairs gives to channel
    [c] when the weights of one channel accumulate. *)
Definition Qcredit (c : string) (cws : list (string * Q)) : Q :=
  Qsum (map snd (filter (fun cw => String.eqb (fst cw) c) cws)).

Definition Rcredit (c : string) (cws : list (string * R)) : R :=
  Rsum (map snd (filter (fun cw => String.eqb (fst cw) c) cws)).

(** The sum of the credits of a mapping. *)
Definition Qtotal (d : dict Q) : Q := Qsum (values d).
Definition Rtotal (d : dict R) : R := Rsum (values d).

(** The share of one interior position among [n >= 3] touchpoints. *)
Definition middle_credit_of (n : nat) (first_last_weight : Q) : Q :=
  ((1 - 2 * first_last_weight) / (inject_Z (Z.of_nat n) - 2))%Q.

(** The U-shaped weight of position [i] among [n >= 3] touchpoints. *)
Definition u_weight (n : nat) (first_last_weight : Q) (i : nat) : Q :=
  if ((i =? 0) || (i =? n - 1))%nat then first_last_weight
  else middle_credit_of n first_last_weight.

(** The raw time-decay weight of position [i] among [n] touchpoints. *)
Definition raw_weight (n : nat) (half_life : R) (i : nat) : R :=
  Rpower (1 / 2) (INR (n - 1 - i) / half_life).

(** The normalized time-decay weight of position [i]: its raw weight
    over the sum of the raw weights of all [n] positions. *)
Definition normalized_weight (n : nat) (half_life : R) (i : nat) : R :=
  (raw_weight n half_life i
   / Rsum (map (raw_weight n half_life) (seq 0 n)))%R.

(** [for (c, w) in cws: d[c] += w] on a [defaultdict]. *)
Definition accumulate {V : Type} (add : V -> V -> V) (zero : V)
           (d : dict V) (cws : list (string * V)) : dict V :=
  fold_left (fun acc cw => additem add zero acc (fst cw) (snd cw)) cws d.

(** A sequence paired with the weights of its positions. *)
Definition Qweighted (touchpoints : list Touchpoint) (w : nat -> Q)
  : list (string * Q) :=
  combine (channels touchpoints) (map w (seq 0 (List.length touchpoints))).

Definition Rweighted (touchpoints : list Touchpoint) (w : nat -> R)
  : list (string * R) :=
  combine (channels touchpoints) (map w (seq 0 (List.length touchpoints))).

(** A number argument without an overflow in sight: a float, or an int of
    magnitude at most [10^300].  Python turns an int into a float before
    it divides it by a float or formats it, and raises [OverflowError] when
    the int is too large for a float; the exact arithmetic of this
    development has no such case, so the statements that an operation does
    not raise are made for arguments in this range. *)
Definition moderate (x : Q) : Prop := (Qabs x <= inject_Z (10 ^ 300))%Q.

(** Performance numbers that the floating-point code scores as the exact
    arithmetic does: each is 0 or lies between [10^-300] and [10^300], so
    that none is too large for a float or vanishes in one, and a sum of
    efficiency scores is 0 only when every score is. *)
Definition plain_number (v : Q) : Prop :=
  (v == 0 \/ ((1 # 10 ^ 300) <= v /\ v <= inject_Z (10 ^ 300)))%Q.

Definition plain_performance (channel_performance : dict (dict Q)) : Prop :=
  Forall (fun cp : string * dict Q =>
            Forall (fun kv : string * Q => plain_number (snd kv)) (snd cp))
         channel_performance.

(** The number a metric operation returns, if it returns. *)
Definition returned_value (r : result (Metrics.pyfloat * Metrics.message))
  : option Metrics.pyfloat :=
  match r with
  | Ok (v, _) => Some v
  | Raise _ => None
  end.

(** Whether a touchpoint's timestamp parses to an instant at or after
    [cutoff_date]. *)
Definition in_window (fromisoformat : string -> result Z) (cutoff_date : Z)
           (tp : Attribution.Touchpoint) : bool :=
  match fromisoformat (Attribution.timestamp tp) with
  | Ok t => (cutoff_date <=? t)%Z
  | Raise _ => false
  end.

Definition parses (fromisoformat : string -> result Z)
           (tp : Attribution.Touchpoint) : Prop :=
  exists t, fromisoformat (Attribution.timestamp tp) = Ok t.

(** The entry stored for a user with the given impressions record. *)
Definition cap_entry (cap_per_week : Z) (impressions : dict Z) : Optimizer.CapEntry :=
  let weekly_impressions := getdefault 0%Z impressions "week_total"%string in
  if (cap_per_week <=? weekly_impressions)%Z then
    Optimizer.capped weekly_impressions cap_per_week
           "Exclude from targeting for remainder of week"%string
  else
    Optimizer.active weekly_impressions (cap_per_week - weekly_impressions)
           [Metrics.Lit "Can show "%string;
            Metrics.Plain (inject_Z (cap_per_week - weekly_impressions));
            Metrics.Lit " more impressions this week"%string].

End Spec.

Import Spec.

(** ** Dictionaries *)

Section DictFacts.
Variable V : Type.
Implicit Types (d : dict V) (k : string) (v : V).

Lemma get_setitem_same d k v : get (setitem d k v) k = Some v.
Proof.
  induction d as [|[k' v'] d IH]; simpl.
  - now rewrite String.eqb_refl.
  - destruct (String.eqb k k') eqn:E; simpl; rewrite E; auto.
Qed.

Lemma get_setitem_other d k k' v :
  k <> k' -> get (setitem d k v) k' = get d k'.
Proof.
  intros Hne. induction d as [|[k0 v0] d IH]; simpl.
  - destruct (String.eqb k' k) eqn:E; auto.
    apply String.eqb_eq in E. congruence.
  - destruct (String.eqb k k0) eqn:E; simpl.
    + apply String.eqb_eq in E. subst k0.
      destruct (String.eqb k' k) eqn:E'; auto.
      apply String.eqb_eq in E'. congruence.
    + now rewrite IH.
Qed.

Lemma get_some_in_keys d k : get d k <> None <-> In k (keys d).
Proof.
  induction d as [|[k' v'] d IH]; simpl.
  - tauto.
  - destruct (String.eqb k k') eqn:E.
    + apply String.eqb_eq in E. subst. split; [auto | discriminate].
    + apply String.eqb_neq in E. rewrite IH. split; [auto | intros [H|H]; congruence].
Qed.

Lemma contains_in_keys d k : contains d k = true <-> In k (keys d).
Proof.
  rewrite <- get_some_in_keys. unfold contains.
  destruct (get d k); split; congruence.
Qed.

Lemma keys_setitem d k v k' :
  In k' (keys (setitem d k v)) <-> k' = k \/ In k' (keys d).
Proof.
  induction d as [|[k0 v0] d IH]; simpl.
  - split; intros [H|H]; auto; contradiction.
  - destruct (String.eqb k k0) eqn:E; simpl.
    + apply String.eqb_eq in E. subst. intuition congruence.
    + rewrite IH. tauto.
Qed.

Lemma keys_setitem_NoDup d k v : NoDup (keys d) -> NoDup (keys (setitem d k v)).
Proof.
  induction d as [|[k0 v0] d IH]; simpl; intros Hnd.
  - constructor; [intros [] | constructor].
  - inversion Hnd as [|? ? Hnotin Hnd']; subst.
    destruct (String.eqb k k0) eqn:E; simpl.
    + now constructor.
    + constructor; auto.
      intro Hin. apply keys_setitem in Hin. destruct Hin as [->|Hin]; auto.
      now rewrite String.eqb_refl in E.
Qed.

Lemma getdefault_setitem_same dflt d k v : getdefault dflt (setitem d k v) k = v.
Proof. unfold getdefault. now rewrite get_setitem_same. Qed.

Lemma getdefault_setitem_other dflt d k k' v :
  k <> k' -> getdefault dflt (setitem d k v) k' = getdefault dflt d k'.
Proof. intros. unfold getdefault. now rewrite get_setitem_other. Qed.

End DictFacts.

(** ** Metric operations: the edge cases *)

Section MetricFacts.
Import Metrics.
Local Open Scope string_scope.
Local Open Scope Q_scope.

Lemma Qdiv_py_nonzero a b : Qeq_bool b 0 = false -> Qdiv_py a b = Ok (a / b).
Proof. intros H. unfold Qdiv_py. now rewrite H. Qed.

Lemma Qdiv_py_inject_Z a z : (z =? 0)%Z = false ->
  Qdiv_py a (inject_Z z) = Ok (a / inject_Z z).
Proof.
  intros H. apply Qdiv_py_nonzero.
  destruct (Qeq_bool (inject_Z z) 0) eqn:E; auto.
  apply Qeq_bool_iff in E. unfold Qeq in E. simpl in E.
  apply Z.eqb_neq in H. lia.
Qed.

Ltac guard_off :=
  match goal with
  | H : Qeq_bool ?b 0 = false |- context [Qdiv_py ?a ?b] =>
      rewrite (@Qdiv_py_nonzero a b H)
  | H : (?z =? 0)%Z = false |- context [Qdiv_py ?a (inject_Z ?z)] =>
      rewrite (@Qdiv_py_inject_Z a z H)
  end.

Ltac walk_branches :=
  repeat match goal with
         | |- context [if Qlt_bool ?a ?b then _ else _] =>
             destruct (Qlt_bool a b)
         end.

(** No metric operation raises, whatever its arguments. *)
Lemma ratio_metrics_never_raise :
  (forall revenue ad_spend, raises (calculate_roas revenue ad_spend) = false) /\
  (forall revenue total_cost, raises (calculate_roi revenue total_cost) = false) /\
  (forall ad_spend conversions, raises (calculate_cpa ad_spend conversions) = false) /\
  (forall ad_spend impressions, raises (calculate_cpm ad_spend impressions) = false) /\
  (forall ad_spend clicks, raises (calculate_cpc ad_spend clicks) = false) /\
  (forall clicks impressions, raises (calculate_ctr clicks impressions) = false) /\
  (forall conversions clicks, raises (calculate_cvr conversions clicks) = false) /\
  (forall cost customers, raises (calculate_cac cost customers) = false) /\
  (forall revenue spend, raises (calculate_mer revenue spend) = false).
Proof.
  repeat split; intros.
  - unfold calculate_roas. destruct (Qeq_bool ad_spend 0) eqn:G; auto.
    guard_off. cbn. walk_branches; reflexivity.
  - unfold calculate_roi. destruct (Qeq_bool total_cost 0) eqn:G; auto.
    guard_off. cbn. reflexivity.
  - unfold calculate_cpa. destruct (conversions =? 0)%Z eqn:G; auto.
    guard_off. cbn. walk_branches; reflexivity.
  - unfold calculate_cpm. destruct (impressions =? 0)%Z eqn:G; auto.
    guard_off. cbn. reflexivity.
  - unfold calculate_cpc. destruct (clicks =? 0)%Z eqn:G; auto.
    guard_off. cbn. reflexivity.
  - unfold calculate_ctr. destruct (impressions =? 0)%Z eqn:G; auto.
    guard_off. cbn. walk_branches; reflexivity.
  - unfold calculate_cvr. destruct (clicks =? 0)%Z eqn:G; auto.
    guard_off. cbn. walk_branches; reflexivity.
  - unfold calculate_cac. destruct (customers =? 0)%Z eqn:G; auto.
    guard_off. cbn. walk_branches; reflexivity.
  - unfold calculate_mer. destruct (Qeq_bool spend 0) eqn:G; auto.
    guard_off. cbn. reflexivity.
Qed.

Lemma ltv_and_breakeven_never_raise :
  (forall subscription_tier retention_modifier,
      raises (calculate_ltv subscription_tier retention_modifier) = false) /\
  (forall profit_margin, raises (calculate_breakeven_roas profit_margin) = false).
Proof.
  split; intros.
  - unfold calculate_ltv, getitem, contains.
    destruct (get subscriptions subscription_tier); reflexivity.
  - unfold calculate_breakeven_roas.
    destruct (Qle_bool profit_margin 0) eqn:G; simpl; auto.
    destruct (Qlt_bool 1 profit_margin); auto.
    rewrite Qdiv_py_nonzero; auto.
    destruct (Qeq_bool profit_margin 0) eqn:E; auto.
    apply Qeq_bool_iff in E.
    assert (Qle_bool profit_margin 0 = true) by (apply Qle_bool_iff; lra).
    congruence.
Qed.

(** C8. On its documented edge case every metric operation returns a
    sentinel value with a descriptive message and does not raise: a zero
    denominator in ROAS, ROI, CPA, CPM, CPC, CTR, CVR, CAC and MER, a
    subscription tier that is not a key of the tier table in LTV, and a
    profit margin outside (0, 1] in break-even ROAS.  The sentinel is 0,
    except for CPA and CAC, which return infinity. *)
Theorem metric_edge_cases_return_sentinels :
  (forall revenue ad_spend, ad_spend == 0 ->
      calculate_roas revenue ad_spend
      = Ok (Fin 0, [Lit "Cannot calculate ROAS with zero ad spend"])) /\
  (forall revenue total_cost, total_cost == 0 ->
      calculate_roi revenue total_cost
      = Ok (Fin 0, [Lit "Cannot calculate ROI with zero cost"])) /\
  (forall ad_spend,
      calculate_cpa ad_spend 0
      = Ok (Inf, [Lit "No conversions to calculate CPA"])) /\
  (forall ad_spend,
      calculate_cpm ad_spend 0
      = Ok (Fin 0, [Lit "No impressions to calculate CPM"])) /\
  (forall ad_spend,
      calculate_cpc ad_spend 0
      = Ok (Fin 0, [Lit "No clicks to calculate CPC"])) /\
  (forall clicks,
      calculate_ctr clicks 0
      = Ok (Fin 0, [Lit "No impressions to calculate CTR"])) /\
  (forall conversions,
      calculate_cvr conversions 0
      = Ok (Fin 0, [Lit "No clicks to calculate conversion rate"])) /\
  (forall subscription_tier retention_modifier,
      ~ In subscription_tier (keys subscriptions) ->
      calculate_ltv subscription_tier retention_modifier
      = Ok (Fin 0, [Lit "Invalid subscription tier"])) /\
  (forall total_acquisition_cost,
      calculate_cac total_acquisition_cost 0
      = Ok (Inf, [Lit "No customers acquired"])) /\
  (forall total_revenue total_ad_spend, total_ad_spend == 0 ->
      calculate_mer total_revenue total_ad_spend
      = Ok (Fin 0, [Lit "Cannot calculate MER with zero ad spend"])) /\
  (forall profit_margin, profit_margin <= 0 \/ 1 < profit_margin ->
      calculate_breakeven_roas profit_margin
      = Ok (Fin 0, [Lit "Invalid profit margin (must be between 0 and 1)"])).
Proof.
  repeat split; intros; try reflexivity.
  - unfold calculate_roas.
    now replace (Qeq_bool ad_spend 0) with true by (symmetry; now apply Qeq_bool_iff).
  - unfold calculate_roi.
    now replace (Qeq_bool total_cost 0) with true by (symmetry; now apply Qeq_bool_iff).
  - unfold calculate_ltv.
    destruct (contains subscriptions subscription_tier) eqn:E; auto.
    apply contains_in_keys in E. contradiction.
  - unfold calculate_mer.
    now replace (Qeq_bool total_ad_spend 0) with true
      by (symmetry; now apply Qeq_bool_iff).
  - unfold calculate_breakeven_roas.
    destruct H as [H|H].
    + apply Qle_bool_iff in H. now rewrite H.
    + unfold Qlt_bool.
      destruct (Qle_bool profit_margin 1) eqn:E.
      * apply Qle_bool_iff in E. lra.
      * now rewrite orb_true_r.
Qed.

Lemma metric_edge_cases_witness :
  calculate_roas 359400 0
  = Ok (Fin 0, [Lit "Cannot calculate ROAS with zero ad spend"]) /\
  calculate_ltv "Pro" 1 = Ok (Fin 0, [Lit "Invalid subscription tier"]) /\
  calculate_breakeven_roas (3 # 2)
  = Ok (Fin 0, [Lit "Invalid profit margin (must be between 0 and 1)"]).
Proof.
  destruct metric_edge_cases_return_sentinels
    as (Hroas & _ & _ & _ & _ & _ & _ & Hltv & _ & _ & Hbe).
  split; [| split].
  - apply Hroas. reflexivity.
  - apply Hltv. simpl. intros [H|[H|[H|H]]]; try discriminate H. exact H.
  - apply Hbe. right. reflexivity.
Defined.

End MetricFacts.

(** ** Accumulation of credit in a [defaultdict(float)] *)

Section AccumulateFacts.
Variable V : Type.
Variable add : V -> V -> V.
Variable zero : V.

Lemma keys_additem (d : dict V) k v k' :
  In k' (keys (additem add zero d k v)) <-> k' = k \/ In k' (keys d).
Proof. apply keys_setitem. Qed.

Lemma keys_accumulate (cws : list (string * V)) : forall (d : dict V) c,
  In c (keys (accumulate add zero d cws)) <-> In c (keys d) \/ In c (map fst cws).
Proof.
  induction cws as [|[k v] cws IH]; intros d c; simpl.
  - tauto.
  - unfold accumulate in *. simpl. rewrite IH, keys_additem. intuition congruence.
Qed.

Lemma keys_accumulate_NoDup (cws : list (string * V)) : forall d : dict V,
  NoDup (keys d) -> NoDup (keys (accumulate add zero d cws)).
Proof.
  induction cws as [|[k v] cws IH]; intros d Hnd; simpl; auto.
  apply IH. now apply keys_setitem_NoDup.
Qed.

Lemma accumulate_app (xs ys : list (string * V)) (d : dict V) :
  accumulate add zero d (xs ++ ys)
  = accumulate add zero (accumulate add zero d xs) ys.
Proof. unfold accumulate. apply fold_left_app. Qed.

(** A loop over touchpoints that adds [w t] to the channel of [t]. *)
Lemma fold_left_accumulate (T : Type) (ch : T -> string) (w : T -> V)
      (ts : list T) : forall d : dict V,
  fold_left (fun acc t => additem add zero acc (ch t) (w t)) ts d
  = accumulate add zero d (map (fun t => (ch t, w t)) ts).
Proof. induction ts as [|t ts IH]; intros d; simpl; auto. Qed.

End AccumulateFacts.

Section QAccumulate.
Local Open Scope Q_scope.
Implicit Types (d : dict Q) (cws : list (string * Q)).

Lemma Qtotal_setitem d k v :
  Qtotal (setitem d k v) == Qtotal d - getdefault 0 d k + v.
Proof.
  unfold Qtotal, getdefault.
  induction d as [|[k' v'] d IH]; simpl.
  - lra.
  - destruct (String.eqb k k'); simpl; lra.
Qed.

Lemma Qtotal_additem d k v :
  Qtotal (additem Qplus 0 d k v) == Qtotal d + v.
Proof. unfold additem. rewrite Qtotal_setitem. lra. Qed.

Lemma Qtotal_accumulate cws : forall d,
  Qtotal (accumulate Qplus 0 d cws) == Qtotal d + Qsum (map snd cws).
Proof.
  induction cws as [|[k v] cws IH]; intros d; simpl.
  - lra.
  - unfold accumulate in *. simpl. rewrite IH, Qtotal_additem. simpl. lra.
Qed.

Lemma Qcredit_cons c k v cws :
  Qcredit c ((k, v) :: cws)
  == (if String.eqb k c then v else 0) + Qcredit c cws.
Proof. unfold Qcredit. simpl. destruct (String.eqb k c); simpl; lra. Qed.

Lemma Qgetdefault_additem d k v c :
  getdefault 0 (additem Qplus 0 d k v) c
  == getdefault 0 d c + (if String.eqb k c then v else 0).
Proof.
  unfold additem. destruct (String.eqb k c) eqn:E.
  - apply String.eqb_eq in E. subst. rewrite getdefault_setitem_same. lra.
  - apply String.eqb_neq in E. rewrite getdefault_setitem_other by auto. lra.
Qed.

Lemma Qgetdefault_accumulate cws : forall d c,
  getdefault 0 (accumulate Qplus 0 d cws) c == getdefault 0 d c + Qcredit c cws.
Proof.
  induction cws as [|[k v] cws IH]; intros d c.
  - unfold Qcredit. simpl. lra.
  - unfold accumulate in *. simpl.
    rewrite IH, Qgetdefault_additem, Qcredit_cons. lra.
Qed.

Lemma Qcredit_app c xs ys : Qcredit c (xs ++ ys) == Qcredit c xs + Qcredit c ys.
Proof.
  induction xs as [|[k v] xs IH]; simpl.
  - unfold Qcredit at 2. simpl. lra.
  - rewrite !Qcredit_cons, IH. lra.
Qed.

Lemma Qsum_app xs ys : Qsum (xs ++ ys) == Qsum xs + Qsum ys.
Proof. induction xs as [|x xs IH]; simpl; lra. Qed.

Lemma Qsum_const (T : Type) (w : Q) (ts : list T) :
  Qsum (map (fun _ => w) ts) == Qlen ts * w.
Proof.
  unfold Qlen. induction ts as [|t ts IH].
  - simpl. change (inject_Z 0) with 0. lra.
  - cbn [map Qsum fold_right List.length]. fold (Qsum (map (fun _ => w) ts)).
    rewrite IH, Nat2Z.inj_succ. unfold Z.succ. rewrite inject_Z_plus.
    change (inject_Z 1) with 1. lra.
Qed.

End QAccumulate.

(** ** First-click, last-click and linear attribution *)

Section ClickFacts.
Import Attribution.
Local Open Scope Q_scope.
Implicit Types (touchpoints : list Touchpoint) (c : string).

Lemma is_empty_false (A : Type) (xs : list A) : xs <> [] -> is_empty xs = false.
Proof. destruct xs; [congruence | reflexivity]. Qed.

Lemma index_head (A : Type) (xs : list A) (any : A) :
  xs <> [] -> index xs 0 = Ok (hd any xs).
Proof. destruct xs; [congruence | reflexivity]. Qed.

Lemma nth_error_last (A : Type) (xs : list A) (any : A) :
  xs <> [] -> nth_error xs (List.length xs - 1) = Some (last xs any).
Proof.
  induction xs as [|x xs IH]; [congruence|]. intros _.
  destruct xs as [|y ys]; [reflexivity|].
  replace (List.length (x :: y :: ys) - 1)%nat with (S (List.length (y :: ys) - 1))
    by (simpl; lia).
  cbn [nth_error]. rewrite IH by discriminate. reflexivity.
Qed.

Lemma index_neg_last (A : Type) (xs : list A) (any : A) :
  xs <> [] -> index_neg xs 1 = Ok (last xs any).
Proof.
  intros Hne. unfold index_neg, index.
  destruct (List.length xs <? 1)%nat eqn:E.
  - apply Nat.ltb_lt in E. destruct xs; [congruence | simpl in E; lia].
  - now rewrite (nth_error_last any Hne).
Qed.

Lemma Qlen_nonzero (A : Type) (xs : list A) :
  xs <> [] -> Qeq_bool (Qlen xs) 0 = false.
Proof.
  intros Hne. destruct (Qeq_bool (Qlen xs) 0) eqn:E; auto.
  apply Qeq_bool_iff in E. unfold Qlen, Qeq in E. simpl in E.
  destruct xs; [congruence | simpl in E; lia].
Qed.

Lemma first_last_sound touchpoints (any : Touchpoint) :
  touchpoints <> [] ->
  first_click_attribution touchpoints
  = Ok [(channel (hd any touchpoints), 1)] /\
  last_click_attribution touchpoints
  = Ok [(channel (last touchpoints any), 1)].
Proof.
  intros Hne. split.
  - unfold first_click_attribution.
    now rewrite (is_empty_false Hne), (index_head any Hne).
  - unfold last_click_attribution.
    now rewrite (is_empty_false Hne), (index_neg_last any Hne).
Qed.

(** C9. On the empty touchpoint sequence every attribution policy
    returns the empty mapping and does not raise, whatever the half-life
    and the first/last weight. *)
Theorem empty_sequence_gives_empty_mapping :
  forall (half_life_days : R) (first_last_weight : Q),
    first_click_attribution [] = Ok empty /\
    last_click_attribution [] = Ok empty /\
    linear_attribution [] = Ok empty /\
    time_decay_attribution [] half_life_days = Ok empty /\
    u_shaped_attribution [] first_last_weight = Ok empty.
Proof. intros. repeat split; reflexivity. Qed.

(** C7. For a non-empty sequence, first-click attribution returns the
    mapping with the single channel of the first touchpoint and credit 1,
    last-click attribution the mapping with the single channel of the last
    touchpoint and credit 1; on a sequence of length 1 they return the
    same mapping. *)
Theorem first_and_last_click_credit_one_channel :
  forall touchpoints (any : Touchpoint),
    touchpoints <> [] ->
    first_click_attribution touchpoints
    = Ok [(channel (hd any touchpoints), 1)] /\
    last_click_attribution touchpoints
    = Ok [(channel (last touchpoints any), 1)] /\
    (List.length touchpoints = 1%nat ->
     first_click_attribution touchpoints = last_click_attribution touchpoints).
Proof.
  intros touchpoints any Hne.
  destruct (first_last_sound any Hne) as (Hfirst & Hlast).
  repeat split; auto.
  intros Hlen. rewrite Hfirst, Hlast.
  destruct touchpoints as [|t [|t' ts]]; simpl in Hlen; try lia. reflexivity.
Qed.

Lemma first_and_last_click_witness :
  let a := Build_Touchpoint 1 "linkedin" "2024-01-01T00:00:00" "click" "desktop" in
  let b := Build_Touchpoint 2 "email" "2024-01-06T00:00:00" "click" "mobile" in
  first_click_attribution [a; b] = Ok [("linkedin"%string, 1)] /\
  last_click_attribution [a; b] = Ok [("email"%string, 1)].
Proof.
  intros a b.
  destruct (@first_and_last_click_credit_one_channel [a; b] a) as (Hf & Hl & _).
  - discriminate.
  - split; [exact Hf | exact Hl].
Defined.

Lemma linear_attribution_accumulates touchpoints :
  touchpoints <> [] ->
  linear_attribution touchpoints
  = Ok (accumulate Qplus 0 empty
          (map (fun t => (channel t, 1 / Qlen touchpoints)) touchpoints)).
Proof.
  intros Hne. unfold linear_attribution.
  rewrite (is_empty_false Hne), (@Qdiv_py_nonzero 1 _ (Qlen_nonzero Hne)).
  cbn [bind]. f_equal. unfold Qadditem.
  apply (fold_left_accumulate Qplus 0 channel (fun _ => 1 / Qlen touchpoints)).
Qed.

Lemma Qcredit_constant_weight c (w : Q) touchpoints :
  Qcredit c (map (fun t => (channel t, w)) touchpoints)
  == inject_Z (Z.of_nat (count_channel c touchpoints)) * w.
Proof.
  unfold count_channel. induction touchpoints as [|t ts IH].
  - unfold Qcredit. simpl. change (inject_Z 0) with 0. lra.
  - cbn [map]. rewrite Qcredit_cons, IH. cbn [filter].
    destruct (String.eqb (channel t) c).
    + cbn [List.length]. rewrite Nat2Z.inj_succ. unfold Z.succ.
      rewrite inject_Z_plus. change (inject_Z 1) with 1. lra.
    + lra.
Qed.

Lemma map_fst_channel_weight (w : Touchpoint -> Q) touchpoints :
  map fst (map (fun t => (channel t, w t)) touchpoints) = channels touchpoints.
Proof. unfold channels. rewrite map_map. reflexivity. Qed.

(** C6. Linear attribution on a non-empty sequence of [n] touchpoints
    returns a mapping whose keys are exactly the distinct channels of
    the sequence, each with credit (number of its touchpoints) / n. *)
Theorem linear_credit_is_share_of_touchpoints :
  forall touchpoints,
    touchpoints <> [] ->
    exists d,
      linear_attribution touchpoints = Ok d /\
      NoDup (keys d) /\
      (forall c, In c (keys d) <-> In c (channels touchpoints)) /\
      (forall c, In c (channels touchpoints) ->
         exists v, get d c = Some v /\
                   v == inject_Z (Z.of_nat (count_channel c touchpoints))
                        / Qlen touchpoints).
Proof.
  intros touchpoints Hne. eexists. split; [now apply linear_attribution_accumulates|].
  assert (Hkeys : forall c,
             In c (keys (accumulate Qplus 0 empty
                (map (fun t => (channel t, 1 / Qlen touchpoints)) touchpoints)))
             <-> In c (channels touchpoints)).
  { intros c. rewrite keys_accumulate, map_fst_channel_weight. simpl. tauto. }
  split; [|split]; auto.
  - apply keys_accumulate_NoDup. constructor.
  - intros c Hin. apply Hkeys, get_some_in_keys in Hin.
    pose proof (Qgetdefault_accumulate
                  (map (fun t => (channel t, 1 / Qlen touchpoints)) touchpoints)
                  empty c) as Hget.
    unfold getdefault in Hget.
    destruct (get (accumulate Qplus 0 empty _) c) as [v|]; [|congruence].
    exists v. split; auto. rewrite Hget, Qcredit_constant_weight. simpl.
    field. pose proof (Qlen_nonzero Hne) as Hz. intro Hq.
    apply Qeq_bool_iff in Hq. congruence.
Qed.

Lemma linear_credit_witness :
  let a := Build_Touchpoint 1 "google_ads" "2024-01-01T00:00:00" "click" "desktop" in
  let b := Build_Touchpoint 2 "email" "2024-01-06T00:00:00" "click" "mobile" in
  exists d, linear_attribution [a; b; a] = Ok d /\
            exists v, get d "google_ads"%string = Some v /\ v == 2 # 3.
Proof.
  intros a b.
  destruct (@linear_credit_is_share_of_touchpoints [a; b; a]) as (d & Hd & _ & _ & Hc).
  - discriminate.
  - exists d. split; [exact Hd|].
    destruct (Hc "google_ads"%string) as (v & Hv & Hq).
    + simpl. auto.
    + exists v. split; [exact Hv|]. rewrite Hq. reflexivity.
Defined.

End ClickFacts.

(** ** U-shaped attribution *)

Section UShapedFacts.
Import Attribution.
Local Open Scope Q_scope.
Implicit Types (touchpoints mid : list Touchpoint) (c : string) (w : Q).

(** A sequence of three or more touchpoints: first, interior, last. *)
Lemma split_ends (A : Type) (xs : list A) :
  (3 <= List.length xs)%nat ->
  exists x0 inner xl, xs = x0 :: inner ++ [xl] /\ inner <> [].
Proof.
  intros Hlen. destruct xs as [|x0 rest]; [simpl in Hlen; lia|].
  destruct (exists_last (l := rest)) as (inner & xl & ->).
  { destruct rest; [simpl in Hlen; lia | discriminate]. }
  exists x0, inner, xl. split; auto.
  destruct inner; [simpl in Hlen; lia | discriminate].
Qed.

Lemma Qlen_ends (A : Type) (x0 xl : A) (inner : list A) :
  Qlen (x0 :: inner ++ [xl]) - 2 == Qlen inner.
Proof.
  unfold Qlen. cbn [List.length]. rewrite length_app. cbn [List.length].
  replace (Z.of_nat (S (List.length inner + 1))) with (Z.of_nat (List.length inner) + 2)%Z
    by lia.
  rewrite inject_Z_plus. change (inject_Z 2) with 2. lra.
Qed.

Lemma slice_ends (A : Type) (x0 xl : A) (inner : list A) :
  slice 1 1 (x0 :: inner ++ [xl]) = inner.
Proof.
  unfold slice. cbn [List.length skipn]. rewrite length_app. cbn [List.length].
  replace (S (List.length inner + 1) - 1 - 1)%nat with (List.length inner + 0)%nat by lia.
  rewrite firstn_app_2. simpl. apply app_nil_r.
Qed.

Lemma last_ends (A : Type) (x0 xl any : A) (inner : list A) :
  last (x0 :: inner ++ [xl]) any = xl.
Proof.
  change (x0 :: inner ++ [xl]) with ((x0 :: inner) ++ [xl]). apply last_last.
Qed.

Lemma u_shaped_one (t : Touchpoint) w :
  u_shaped_attribution [t] w = Ok [(channel t, 1)].
Proof. reflexivity. Qed.

Lemma u_shaped_two (t0 t1 : Touchpoint) w :
  u_shaped_attribution [t0; t1] w
  = Ok (setitem [(channel t0, 1 # 2)] (channel t1) (1 # 2)).
Proof. reflexivity. Qed.

Lemma u_shaped_two_distinct (t0 t1 : Touchpoint) w :
  channel t0 <> channel t1 ->
  u_shaped_attribution [t0; t1] w
  = Ok [(channel t0, 1 # 2); (channel t1, 1 # 2)].
Proof.
  intros Hne. rewrite u_shaped_two. simpl.
  destruct (String.eqb (channel t1) (channel t0)) eqn:E; [|reflexivity].
  apply String.eqb_eq in E. congruence.
Qed.

Lemma u_shaped_many (t0 tl : Touchpoint) mid w :
  mid <> [] ->
  u_shaped_attribution (t0 :: mid ++ [tl]) w
  = Ok (accumulate Qplus 0
          (setitem [(channel t0, w)] (channel tl) w)
          (map (fun t => (channel t,
                          middle_credit_of (List.length (t0 :: mid ++ [tl])) w))
               mid)).
Proof.
  intros Hmid. unfold u_shaped_attribution.
  cbn [is_empty].
  assert (Hlen : (3 <= List.length (t0 :: mid ++ [tl]))%nat).
  { cbn [List.length]. rewrite length_app. cbn [List.length].
    destruct mid; [congruence | simpl; lia]. }
  destruct (List.length (t0 :: mid ++ [tl]) =? 1)%nat eqn:E1;
    [apply Nat.eqb_eq in E1; lia|].
  destruct (List.length (t0 :: mid ++ [tl]) =? 2)%nat eqn:E2;
    [apply Nat.eqb_eq in E2; lia|].
  cbn [index nth_error bind].
  rewrite (@index_neg_last _ (t0 :: mid ++ [tl]) t0) by discriminate.
  rewrite last_ends. cbn [bind].
  rewrite Qdiv_py_nonzero.
  - cbn [bind]. rewrite slice_ends. f_equal. unfold Qadditem.
    apply (fold_left_accumulate Qplus 0 channel
             (fun _ => middle_credit_of (List.length (t0 :: mid ++ [tl])) w)).
  - destruct (Qeq_bool (Qlen (t0 :: mid ++ [tl]) - 2) 0) eqn:E; auto.
    apply Qeq_bool_iff in E. rewrite Qlen_ends in E.
    unfold Qlen, Qeq in E. simpl in E.
    destruct mid; [congruence | simpl in E; lia].
Qed.

Lemma Qtotal_two_ends (c0 cl : string) (v : Q) :
  Qtotal (setitem [(c0, v)] cl v) == (if String.eqb cl c0 then v else 2 * v).
Proof.
  unfold Qtotal. simpl. destruct (String.eqb cl c0); simpl; lra.
Qed.

Lemma middle_credit_total mid (t0 tl : Touchpoint) w :
  mid <> [] ->
  Qlen mid * middle_credit_of (List.length (t0 :: mid ++ [tl])) w == 1 - 2 * w.
Proof.
  intros Hmid. unfold middle_credit_of.
  fold (Qlen (t0 :: mid ++ [tl])). rewrite Qlen_ends. field.
  pose proof (Qlen_nonzero Hmid) as Hz. intro Hq.
  apply Qeq_bool_iff in Hq. congruence.
Qed.

(** What the credits returned by the U-shaped policy sum to: 1, less the
    share of the first touchpoint when the last touchpoint of a sequence
    of two or more is on the same channel. *)
Lemma u_shaped_total touchpoints (any : Touchpoint) w :
  touchpoints <> [] ->
  exists d,
    u_shaped_attribution touchpoints w = Ok d /\
    Qtotal d ==
    1 - (if (List.length touchpoints =? 1)%nat then 0
         else if negb (String.eqb (channel (last touchpoints any))
                                  (channel (hd any touchpoints))) then 0
         else if (List.length touchpoints =? 2)%nat then 1 # 2
         else w).
Proof.
  intros Hne.
  destruct touchpoints as [|t0 [|t1 [|t2 rest]]]; [congruence | | |].
  - exists [(channel t0, 1)]. split; [reflexivity|]. unfold Qtotal. simpl. lra.
  - eexists. split; [apply u_shaped_two|].
    rewrite Qtotal_two_ends. cbn [List.length Nat.eqb last hd].
    destruct (String.eqb (channel t1) (channel t0)); simpl; lra.
  - destruct (@split_ends _ (t0 :: t1 :: t2 :: rest)) as (x0 & mid & xl & Heq & Hmid);
      [simpl; lia|].
    rewrite Heq. eexists. split; [now apply u_shaped_many|].
    rewrite Qtotal_accumulate, Qtotal_two_ends, map_map. cbn [snd].
    rewrite Qsum_const, (middle_credit_total x0 xl w Hmid), last_ends.
    cbn [hd]. rewrite <- Heq. cbn [List.length Nat.eqb].
    destruct (String.eqb (channel xl) (channel x0)); simpl; lra.
Qed.


End UShapedFacts.

Section UShapedCredits.
Import Attribution.
Local Open Scope Q_scope.
Implicit Types (touchpoints mid : list Touchpoint) (c : string) (w : Q).

Lemma combine_snoc (A B : Type) (xs : list A) (ys : list B) (x : A) (y : B) :
  List.length xs = List.length ys ->
  combine (xs ++ [x]) (ys ++ [y]) = combine xs ys ++ [(x, y)].
Proof.
  revert ys. induction xs as [|a xs IH]; intros [|b ys] Hlen;
    simpl in *; try discriminate; auto.
  f_equal. apply IH. lia.
Qed.

Lemma combine_interior mid (n : nat) w : forall start : nat,
  (1 <= start)%nat -> (start + List.length mid <= n - 1)%nat ->
  combine (channels mid) (map (u_weight n w) (seq start (List.length mid)))
  = map (fun t => (channel t, middle_credit_of n w)) mid.
Proof.
  induction mid as [|t mid IH]; intros start Hlo Hhi; simpl in *; auto.
  f_equal.
  - f_equal. unfold u_weight.
    destruct (start =? 0)%nat eqn:E0; [apply Nat.eqb_eq in E0; lia|].
    destruct (start =? n - 1)%nat eqn:E1; [apply Nat.eqb_eq in E1; lia|].
    reflexivity.
  - apply IH; lia.
Qed.

(** The U-shaped weights of a sequence of three or more touchpoints. *)
Lemma Qweighted_ends (t0 tl : Touchpoint) mid w :
  mid <> [] ->
  let n := List.length (t0 :: mid ++ [tl]) in
  Qweighted (t0 :: mid ++ [tl]) (u_weight n w)
  = (channel t0, w)
      :: map (fun t => (channel t, middle_credit_of n w)) mid
      ++ [(channel tl, w)].
Proof.
  intros Hmid n.
  assert (Hn : List.length (t0 :: mid ++ [tl]) = S (List.length mid + 1)).
  { cbn [List.length]. now rewrite length_app. }
  subst n. unfold Qweighted, channels. rewrite !Hn.
  cbn [map seq combine]. rewrite map_app. cbn [map].
  rewrite seq_app, map_app. cbn [seq map].
  rewrite combine_snoc by (now rewrite !length_map, length_seq).
  f_equal. f_equal.
  - apply combine_interior; lia.
  - f_equal. f_equal. unfold u_weight.
    replace (1 + List.length mid =? S (List.length mid + 1) - 1)%nat with true
      by (symmetry; apply Nat.eqb_eq; lia).
    now rewrite orb_true_r.
Qed.

Lemma getdefault_two_ends (c0 cl c : string) (v : Q) :
  getdefault 0 (setitem [(c0, v)] cl v) c
  == (if String.eqb c0 c then v else 0) + (if String.eqb cl c then v else 0)
     - (if String.eqb cl c0 && String.eqb c c0 then v else 0).
Proof.
  unfold getdefault. simpl.
  destruct (String.eqb cl c0) eqn:E; simpl.
  - apply String.eqb_eq in E. subst cl.
    rewrite (String.eqb_sym c0 c). destruct (String.eqb c c0); lra.
  - rewrite (String.eqb_sym c0 c), (String.eqb_sym cl c).
    destruct (String.eqb c c0) eqn:E0; destruct (String.eqb c cl) eqn:E1;
      try lra.
    apply String.eqb_eq in E0, E1. apply String.eqb_neq in E. congruence.
Qed.

(** The credit of every channel under the U-shaped policy, for three or
    more touchpoints: the accumulated position weights, less one
    first/last weight on the channel of the first touchpoint when the
    last touchpoint is on that channel too. *)
Lemma u_shaped_credit touchpoints (any : Touchpoint) w :
  (3 <= List.length touchpoints)%nat ->
  exists d,
    u_shaped_attribution touchpoints w = Ok d /\
    NoDup (keys d) /\
    (forall c, In c (keys d) <-> In c (channels touchpoints)) /\
    (forall c,
        getdefault 0 d c ==
        Qcredit c (Qweighted touchpoints (u_weight (List.length touchpoints) w))
        - (if String.eqb (channel (last touchpoints any))
                         (channel (hd any touchpoints))
              && String.eqb c (channel (hd any touchpoints))
           then w else 0)).
Proof.
  intros Hlen.
  destruct (split_ends touchpoints Hlen) as (t0 & mid & tl & -> & Hmid).
  eexists. split; [now apply u_shaped_many|].
  split; [|split].
  - apply keys_accumulate_NoDup. apply keys_setitem_NoDup.
    constructor; [intros [] | constructor].
  - intros c. rewrite keys_accumulate, keys_setitem, map_fst_channel_weight.
    unfold channels, keys. cbn [map fst In]. rewrite map_app, in_app_iff.
    cbn [map In]. intuition congruence.
  - intros c. rewrite Qgetdefault_accumulate, getdefault_two_ends.
    rewrite (Qweighted_ends t0 tl w Hmid). cbv zeta.
    rewrite Qcredit_cons, Qcredit_app, last_ends. cbn [hd].
    unfold Qcredit at 3. cbn [filter fst map snd Qsum fold_right].
    destruct (String.eqb (channel tl) c); cbn [map snd Qsum fold_right]; lra.
Qed.

(** With the first and the last touchpoint on different channels, every
    channel's credit is the sum of the weights of its positions. *)
Lemma u_shaped_credit_distinct_ends touchpoints (any : Touchpoint) w :
  (3 <= List.length touchpoints)%nat ->
  channel (hd any touchpoints) <> channel (last touchpoints any) ->
  exists d,
    u_shaped_attribution touchpoints w = Ok d /\
    forall c,
      getdefault 0 d c ==
      Qcredit c (Qweighted touchpoints (u_weight (List.length touchpoints) w)).
Proof.
  intros Hlen Hdiff.
  destruct (@u_shaped_credit touchpoints any w Hlen) as (d & Hd & _ & _ & Hc).
  exists d. split; auto. intros c. rewrite Hc.
  destruct (String.eqb (channel (last touchpoints any))
                       (channel (hd any touchpoints))) eqn:E.
  - apply String.eqb_eq in E. congruence.
  - simpl. lra.
Qed.

(** C1, at a sequence of two touchpoints on one channel.  The U-shaped
    policy returns a mapping with that channel at credit 1/2: the second
    assignment overwrites the first, and the credits sum to 1/2, not 1. *)
Theorem u_shaped_two_on_one_channel_sums_to_half :
  let a := Build_Touchpoint 1 "google_ads" "2024-01-01T00:00:00" "click" "desktop" in
  let b := Build_Touchpoint 2 "google_ads" "2024-01-06T00:00:00" "click" "mobile" in
  u_shaped_attribution [a; b] default_first_last_weight
  = Ok [("google_ads"%string, 1 # 2)] /\
  Qtotal [("google_ads"%string, 1 # 2)] == 1 # 2 /\
  ~ Qtotal [("google_ads"%string, 1 # 2)] == 1.
Proof.
  intros a b. split; [reflexivity|]. split; [reflexivity|]. discriminate.
Qed.

(** C2, at a sequence of three touchpoints whose first and last are on
    one channel.  With the default weight 0.4 the accumulated position
    weights of that channel are 0.8, and the U-shaped policy credits it
    0.4: the assignment for the last touchpoint overwrites the one for
    the first. *)
Theorem u_shaped_same_ends_credited_once :
  let a := Build_Touchpoint 1 "google_ads" "2024-01-01T00:00:00" "click" "desktop" in
  let b := Build_Touchpoint 2 "email" "2024-01-06T00:00:00" "click" "mobile" in
  let c := Build_Touchpoint 3 "google_ads" "2024-01-11T00:00:00" "click" "desktop" in
  exists d,
    u_shaped_attribution [a; b; c] default_first_last_weight = Ok d /\
    keys d = ["google_ads"%string; "email"%string] /\
    getdefault 0 d "google_ads" == 4 # 10 /\
    getdefault 0 d "email" == 2 # 10 /\
    Qcredit "google_ads"
            (Qweighted [a; b; c] (u_weight 3 default_first_last_weight))
    == 8 # 10 /\
    Qtotal d == 6 # 10.
Proof.
  intros a b c. eexists. split; [reflexivity|].
  repeat split; reflexivity.
Qed.

End UShapedCredits.

(** ** Time-decay attribution *)

Section RAccumulate.
Local Open Scope R_scope.
Implicit Types (d : dict R) (cws : list (string * R)).

Lemma Rtotal_setitem d k v :
  Rtotal (setitem d k v) = Rtotal d - getdefault 0 d k + v.
Proof.
  unfold Rtotal, getdefault.
  induction d as [|[k' v'] d IH]; simpl.
  - lra.
  - destruct (String.eqb k k'); simpl; lra.
Qed.

Lemma Rtotal_accumulate cws : forall d,
  Rtotal (accumulate Rplus 0 d cws) = Rtotal d + Rsum (map snd cws).
Proof.
  induction cws as [|[k v] cws IH]; intros d; simpl.
  - lra.
  - unfold accumulate in *. simpl. rewrite IH. unfold additem.
    rewrite Rtotal_setitem. lra.
Qed.

Lemma Rcredit_cons c k v cws :
  Rcredit c ((k, v) :: cws) = (if String.eqb k c then v else 0) + Rcredit c cws.
Proof. unfold Rcredit. simpl. destruct (String.eqb k c); simpl; lra. Qed.

Lemma Rgetdefault_accumulate cws : forall d c,
  getdefault 0 (accumulate Rplus 0 d cws) c = getdefault 0 d c + Rcredit c cws.
Proof.
  induction cws as [|[k v] cws IH]; intros d c.
  - unfold Rcredit. simpl. lra.
  - unfold accumulate in *. simpl. rewrite IH, Rcredit_cons. unfold additem.
    destruct (String.eqb k c) eqn:E.
    + apply String.eqb_eq in E. subst. rewrite getdefault_setitem_same. lra.
    + apply String.eqb_neq in E. rewrite getdefault_setitem_other by auto. lra.
Qed.

Lemma Rsum_scaled (T : Type) (f : T -> R) (s : R) (xs : list T) :
  Rsum (map (fun x => f x / s) xs) = Rsum (map f xs) / s.
Proof. induction xs as [|x xs IH]; simpl; [|rewrite IH]; lra. Qed.

Lemma Rsum_positive (xs : list R) :
  xs <> [] -> Forall (fun x => 0 < x) xs -> 0 < Rsum xs.
Proof.
  intros Hne Hall. induction Hall as [|x xs Hx Hall IH]; [congruence|].
  simpl. destruct xs as [|y ys].
  - simpl. lra.
  - assert (0 < Rsum (y :: ys)) by (apply IH; discriminate). lra.
Qed.

Lemma snd_combine (A B : Type) (xs : list A) (ys : list B) :
  List.length xs = List.length ys -> map snd (combine xs ys) = ys.
Proof.
  revert ys. induction xs as [|x xs IH]; intros [|y ys] Hlen;
    simpl in *; try discriminate; auto.
  f_equal. apply IH. lia.
Qed.

Lemma fst_combine (A B : Type) (xs : list A) (ys : list B) :
  List.length xs = List.length ys -> map fst (combine xs ys) = xs.
Proof.
  revert ys. induction xs as [|x xs IH]; intros [|y ys] Hlen;
    simpl in *; try discriminate; auto.
  f_equal. apply IH. lia.
Qed.

(** With pairwise distinct channels, a channel's credit is the weight of
    its one position. *)
Lemma Rcredit_distinct (chs : list string) : forall (ws : list R) (i : nat) c w,
  NoDup chs -> List.length chs = List.length ws ->
  nth_error chs i = Some c -> nth_error ws i = Some w ->
  Rcredit c (combine chs ws) = w.
Proof.
  induction chs as [|k chs IH]; intros ws i c w Hnd Hlen Hc Hw.
  - destruct i; discriminate.
  - destruct ws as [|v ws]; [discriminate|].
    inversion Hnd as [|? ? Hnotin Hnd']; subst.
    cbn [combine]. rewrite Rcredit_cons.
    destruct i as [|i]; simpl in Hc, Hw.
    + injection Hc as ->. injection Hw as ->. rewrite String.eqb_refl.
      assert (Hz : forall ws', Rcredit c (combine chs ws') = 0).
      { clear - Hnotin. induction chs as [|k chs IH]; intros ws'.
        - reflexivity.
        - destruct ws' as [|v' ws']; [reflexivity|].
          cbn [combine]. rewrite Rcredit_cons.
          destruct (String.eqb k c) eqn:E.
          + apply String.eqb_eq in E. subst. exfalso. apply Hnotin. now left.
          + rewrite IH; [lra|]. intro. apply Hnotin. now right. }
      rewrite Hz. lra.
    + destruct (String.eqb k c) eqn:E.
      * apply String.eqb_eq in E. subst. exfalso. apply Hnotin.
        eapply nth_error_In; eauto.
      * assert (Hlen' : List.length chs = List.length ws)
          by (simpl in Hlen; lia).
        rewrite (IH ws i c w Hnd' Hlen' Hc Hw). lra.
Qed.

End RAccumulate.

Section TimeDecayFacts.
Import Attribution.
Local Open Scope R_scope.
Implicit Types (touchpoints : list Touchpoint) (c : string) (h : R).

Lemma Rdiv_py_nonzero (a b : R) : b <> 0 -> Rdiv_py a b = Ok (a / b).
Proof. intros Hb. unfold Rdiv_py. destruct (Req_dec_T b 0); [contradiction | reflexivity]. Qed.

Lemma mapM_total (A B : Type) (f : A -> result B) (g : A -> B) (xs : list A) :
  (forall x, In x xs -> f x = Ok (g x)) -> mapM f xs = Ok (map g xs).
Proof.
  induction xs as [|x xs IH]; intros Hf; simpl; auto.
  rewrite Hf by now left. cbn [bind]. rewrite IH; auto.
  intros y Hy. apply Hf. now right.
Qed.

Lemma decay_weight_raw (n : nat) h (i : nat) :
  h <> 0 -> decay_weight n h i = Ok (raw_weight n h i).
Proof.
  intros Hh. unfold decay_weight, raw_weight.
  rewrite Rdiv_py_nonzero by auto. cbn [bind].
  replace (n - i - 1)%nat with (n - 1 - i)%nat by lia. reflexivity.
Qed.

Lemma raw_weight_positive (n : nat) h (i : nat) : 0 < raw_weight n h i.
Proof. unfold raw_weight, Rpower. apply exp_pos. Qed.

Lemma ln_half_negative : ln (1 / 2) < 0.
Proof. rewrite <- ln_1. apply ln_increasing; lra. Qed.

(** A later position has a strictly larger raw weight. *)
Lemma raw_weight_increasing (n : nat) h (i j : nat) :
  0 < h -> (i < j)%nat -> (j < n)%nat -> raw_weight n h i < raw_weight n h j.
Proof.
  intros Hh Hij Hjn. unfold raw_weight, Rpower. apply exp_increasing.
  assert (Hlt : INR (n - 1 - j) < INR (n - 1 - i)) by (apply lt_INR; lia).
  pose proof ln_half_negative as Hln.
  assert (Hdiv : INR (n - 1 - j) / h < INR (n - 1 - i) / h).
  { unfold Rdiv. apply Rmult_lt_compat_r; auto. now apply Rinv_0_lt_compat. }
  nra.
Qed.

(** The sum of the raw weights of the [n] positions. *)
Lemma total_weight_positive (n : nat) h :
  (0 < n)%nat -> 0 < Rsum (map (raw_weight n h) (seq 0 n)).
Proof.
  intros Hn. apply Rsum_positive.
  - destruct n; [lia | discriminate].
  - apply Forall_map, Forall_forall. intros i _. apply raw_weight_positive.
Qed.

Lemma length_positive (A : Type) (xs : list A) : xs <> [] -> (0 < List.length xs)%nat.
Proof. destruct xs; [congruence | simpl; lia]. Qed.

Lemma combine_channels (ws : list R) touchpoints :
  map (fun tw : Touchpoint * R => (channel (fst tw), snd tw))
      (combine touchpoints ws)
  = combine (channels touchpoints) ws.
Proof.
  revert ws. induction touchpoints as [|t ts IH]; intros [|w ws]; simpl; auto.
  f_equal. apply IH.
Qed.

(** What [time_decay_attribution] returns for a non-zero half-life: the
    normalized weights accumulated per channel. *)
Lemma time_decay_accumulates touchpoints h :
  touchpoints <> [] -> h <> 0 ->
  time_decay_attribution touchpoints h
  = Ok (accumulate Rplus 0 empty
          (Rweighted touchpoints
                     (normalized_weight (List.length touchpoints) h))).
Proof.
  intros Hne Hh. unfold time_decay_attribution.
  rewrite (is_empty_false Hne).
  rewrite (mapM_total _ (raw_weight (List.length touchpoints) h))
    by (intros; now apply decay_weight_raw).
  cbn [bind].
  pose proof (total_weight_positive h (length_positive Hne)) as HT.
  rewrite (mapM_total _ (fun w => w / Rsum (map (raw_weight (List.length touchpoints) h)
                                              (seq 0 (List.length touchpoints)))))
    by (intros; apply Rdiv_py_nonzero; lra).
  cbn [bind]. f_equal. unfold Radditem.
  rewrite (fold_left_accumulate Rplus 0
             (fun tw : Touchpoint * R => channel (fst tw)) (fun tw => snd tw)).
  rewrite combine_channels, map_map. reflexivity.
Qed.

Lemma normalized_weights_sum_to_one (n : nat) h :
  (0 < n)%nat -> Rsum (map (normalized_weight n h) (seq 0 n)) = 1.
Proof.
  intros Hn. unfold normalized_weight. rewrite Rsum_scaled.
  pose proof (total_weight_positive h Hn). field. lra.
Qed.

Lemma Rweighted_lengths touchpoints (w : nat -> R) :
  List.length (channels touchpoints)
  = List.length (map w (seq 0 (List.length touchpoints))).
Proof. unfold channels. now rewrite !length_map, length_seq. Qed.

(** The credits of the time-decay policy sum to 1. *)
Lemma time_decay_total touchpoints h :
  touchpoints <> [] -> h <> 0 ->
  exists d, time_decay_attribution touchpoints h = Ok d /\ Rtotal d = 1.
Proof.
  intros Hne Hh. eexists. split; [now apply time_decay_accumulates|].
  rewrite Rtotal_accumulate. unfold Rweighted.
  rewrite snd_combine by apply Rweighted_lengths.
  rewrite normalized_weights_sum_to_one by now apply length_positive.
  unfold Rtotal. simpl. lra.
Qed.

End TimeDecayFacts.

Section TimeDecayBinary64.
Import Attribution.
Import PrimFloat.

(** C10, as stated, in binary floating point at a half-life of [10^17]:
    the exponent [1 / 10^17] of the earlier touchpoint is a positive double
    below [2^-54], its weight [0.5 ** (1 / 10^17)] is 1.0 like the weight
    [0.5 ** 0.0] of the later one, and the two channels get the credit 0.5
    each, with either [sum], so the later credit is not strictly
    greater. *)
Lemma time_decay_credits_tie_in_binary64 :
  let a := Build_Touchpoint 1 "linkedin" "2024-01-01T00:00:00" "click" "desktop" in
  let b := Build_Touchpoint 2 "email" "2024-01-06T00:00:00" "click" "mobile" in
  exists d vi vj,
    Binary64.time_decay_attribution Binary64.sum [a; b] 1e17%float = Some (Ok d) /\
    Binary64.time_decay_attribution Binary64.sum_compensated [a; b] 1e17%float
    = Some (Ok d) /\
    get d "linkedin"%string = Some vi /\
    get d "email"%string = Some vj /\
    vi = 0.5%float /\ vj = 0.5%float /\
    PrimFloat.ltb vi vj = false.
Proof.
  intros a b. exists [("linkedin"%string, 0.5%float); ("email"%string, 0.5%float)].
  exists 0.5%float, 0.5%float.
  split; [vm_compute; reflexivity|].
  split; [vm_compute; reflexivity|].
  split; [reflexivity|]. split; [reflexivity|].
  split; [reflexivity|]. split; reflexivity.
Qed.

(** A half-life as short as 0.001 has the same effect at the other end:
    the weights [0.5 ** 3000] and [0.5 ** 2000] of the two oldest of four
    touchpoints underflow to 0.0, and their channels both get credit 0.0. *)
Lemma time_decay_credits_underflow_in_binary64 :
  let a := Build_Touchpoint 1 "linkedin" "2024-01-01T00:00:00" "click" "desktop" in
  let b := Build_Touchpoint 2 "email" "2024-01-06T00:00:00" "click" "mobile" in
  let c := Build_Touchpoint 3 "direct" "2024-01-11T00:00:00" "click" "desktop" in
  let d := Build_Touchpoint 4 "facebook" "2024-01-12T00:00:00" "click" "mobile" in
  exists credits,
    Binary64.time_decay_attribution Binary64.sum [a; b; c; d]
                                    0x1.0624dd2f1a9fcp-10%float
    = Some (Ok credits) /\
    get credits "linkedin"%string = Some 0%float /\
    get credits "email"%string = Some 0%float /\
    get credits "facebook"%string = Some 1%float.
Proof.
  intros a b c d. eexists. split; [vm_compute; reflexivity|].
  split; [reflexivity|]. split; reflexivity.
Qed.

End TimeDecayBinary64.

Section TimeDecayClaims.
Import Attribution.
Local Open Scope R_scope.
Implicit Types (touchpoints : list Touchpoint) (c : string) (h : R).

(** C5. For a half-life [h > 0] and a non-empty sequence of [n]
    touchpoints, time-decay attribution returns a mapping whose keys are
    the channels of the sequence and in which the credit of a channel is
    the sum, over its positions [i], of the raw weight
    [0.5 ^ ((n - 1 - i) / h)] divided by the sum of all raw weights; the
    normalized weights sum to 1; and for a sequence of length 1 the
    mapping is the single channel with credit exactly 1. *)
Theorem time_decay_credit_is_normalized_decay :
  forall touchpoints h,
    0 < h -> touchpoints <> [] ->
    let n := List.length touchpoints in
    exists d,
      time_decay_attribution touchpoints h = Ok d /\
      (forall c, In c (keys d) <-> In c (channels touchpoints)) /\
      (forall c, getdefault 0 d c
                 = Rcredit c (Rweighted touchpoints
                                (fun i => raw_weight n h i
                                          / Rsum (map (raw_weight n h) (seq 0 n))))) /\
      Rsum (map (fun i => raw_weight n h i
                          / Rsum (map (raw_weight n h) (seq 0 n)))
                (seq 0 n)) = 1 /\
      (forall t, touchpoints = [t] -> d = [(channel t, 1)]).
Proof.
  intros touchpoints h Hh Hne n.
  assert (Hh0 : h <> 0) by lra.
  eexists. split; [now apply time_decay_accumulates|].
  split; [|split; [|split]].
  - intros c. rewrite keys_accumulate. unfold Rweighted.
    rewrite fst_combine by apply Rweighted_lengths. simpl. tauto.
  - intros c. rewrite Rgetdefault_accumulate. unfold getdefault. simpl.
    fold n. unfold normalized_weight. lra.
  - apply (normalized_weights_sum_to_one h (length_positive Hne)).
  - intros t ->. unfold Rweighted, accumulate, additem, normalized_weight, raw_weight.
    cbn. f_equal. f_equal.
    replace (0 / h) with 0 by (field; lra).
    rewrite Rpower_O by lra. lra.
Qed.

Lemma time_decay_credit_witness :
  let a := Build_Touchpoint 1 "email" "2024-01-01T00:00:00" "click" "desktop" in
  exists d, time_decay_attribution [a] default_half_life_days = Ok d /\
            d = [("email"%string, 1)].
Proof.
  intros a.
  destruct (@time_decay_credit_is_normalized_decay [a] default_half_life_days)
    as (d & Hd & _ & _ & _ & Hone).
  - unfold default_half_life_days. lra.
  - discriminate.
  - exists d. split; [exact Hd | exact (Hone a eq_refl)].
Defined.

(** The normalized weight of an earlier position is the normalized weight
    of a later one times [0.5 ^ (distance / h)]. *)
Lemma normalized_weight_ratio (n : nat) h (i j : nat) :
  h <> 0 -> (i <= j)%nat -> (j < n)%nat ->
  normalized_weight n h i
  = normalized_weight n h j * Rpower (1 / 2) (INR (j - i) / h).
Proof.
  intros Hh Hij Hjn. unfold normalized_weight.
  assert (Hraw : raw_weight n h i
                 = raw_weight n h j * Rpower (1 / 2) (INR (j - i) / h)).
  { unfold raw_weight. rewrite <- Rpower_plus. f_equal.
    replace (n - 1 - i)%nat with ((n - 1 - j) + (j - i))%nat by lia.
    rewrite plus_INR. field. exact Hh. }
  rewrite Hraw. field.
  apply Rgt_not_eq. apply total_weight_positive. lia.
Qed.

(** C10, amended.  For a sequence of touchpoints on pairwise distinct
    channels and a half-life [h > 0], the time-decay credit is monotone in
    recency: for positions [i < j], the credit of the channel of touchpoint
    [j] is at least the credit of the channel of touchpoint [i], which is
    the later credit times [0.5 ^ ((j - i) / h)]. *)
Theorem time_decay_monotone_in_recency :
  forall touchpoints h (i j : nat) (ti tj : Touchpoint),
    NoDup (channels touchpoints) ->
    0 < h ->
    (i < j)%nat ->
    nth_error touchpoints i = Some ti ->
    nth_error touchpoints j = Some tj ->
    exists d vi vj,
      time_decay_attribution touchpoints h = Ok d /\
      get d (channel ti) = Some vi /\
      get d (channel tj) = Some vj /\
      vi <= vj /\
      vi = vj * Rpower (1 / 2) (INR (j - i) / h).
Proof.
  intros touchpoints h i j ti tj Hnd Hh Hij Hi Hj.
  assert (Hne : touchpoints <> []) by (destruct touchpoints; [destruct i|]; discriminate).
  assert (Hh0 : h <> 0) by lra.
  assert (Hjn : (j < List.length touchpoints)%nat)
    by (apply nth_error_Some; congruence).
  set (n := List.length touchpoints) in *.
  set (d := accumulate Rplus 0 empty (Rweighted touchpoints (normalized_weight n h))).
  assert (Hd : time_decay_attribution touchpoints h = Ok d)
    by now apply time_decay_accumulates.
  assert (Hcredit : forall k t, nth_error touchpoints k = Some t ->
             get d (channel t) = Some (normalized_weight n h k)).
  { intros k t Hk.
    assert (Hkn : (k < n)%nat) by (apply nth_error_Some; congruence).
    assert (Hin : In (channel t) (keys d)).
    { unfold d. rewrite keys_accumulate. right. unfold Rweighted.
      rewrite fst_combine by apply Rweighted_lengths.
      unfold channels. apply in_map. eapply nth_error_In; eauto. }
    apply get_some_in_keys in Hin.
    pose proof (Rgetdefault_accumulate
                  (Rweighted touchpoints (normalized_weight n h)) empty (channel t))
      as Hget.
    fold d in Hget. unfold getdefault in Hget at 1.
    destruct (get d (channel t)) as [v|]; [|congruence].
    f_equal. rewrite Hget. unfold getdefault. simpl.
    unfold Rweighted.
    rewrite (@Rcredit_distinct (channels touchpoints) _ k (channel t)
               (normalized_weight n h k) Hnd (Rweighted_lengths _ _)).
    - lra.
    - unfold channels. now rewrite nth_error_map, Hk.
    - rewrite nth_error_map, nth_error_seq. fold n.
      rewrite (proj2 (Nat.ltb_lt k n) Hkn). reflexivity. }
  exists d, (normalized_weight n h i), (normalized_weight n h j).
  split; [exact Hd|]. split; [now apply Hcredit|]. split; [now apply Hcredit|].
  split.
  - apply Rlt_le. unfold normalized_weight.
    apply Rmult_lt_compat_r.
    + apply Rinv_0_lt_compat, total_weight_positive. lia.
    + now apply raw_weight_increasing.
  - apply normalized_weight_ratio; auto. lia.
Qed.

Lemma time_decay_monotone_witness :
  let a := Build_Touchpoint 1 "linkedin" "2024-01-01T00:00:00" "click" "desktop" in
  let b := Build_Touchpoint 2 "email" "2024-01-06T00:00:00" "click" "mobile" in
  exists d vi vj,
    time_decay_attribution [a; b] default_half_life_days = Ok d /\
    get d "linkedin"%string = Some vi /\
    get d "email"%string = Some vj /\
    vi <= vj /\
    vi = vj * Rpower (1 / 2) (INR 1 / default_half_life_days).
Proof.
  intros a b.
  apply (@time_decay_monotone_in_recency
           [a; b] default_half_life_days 0%nat 1%nat a b).
  - repeat constructor; simpl; intuition discriminate.
  - unfold default_half_life_days. lra.
  - lia.
  - reflexivity.
  - reflexivity.
Defined.

End TimeDecayClaims.

(** ** Budget allocation *)

Section OptimizerFacts.
Import Optimizer.
Local Open Scope Q_scope.
Implicit Types (total_budget total_score score : Q)
         (channel_performance : dict (dict Q))
         (allocation : dict Allocation).

Ltac Qle_cases :=
  repeat match goal with
         | |- context [Qle_bool ?x ?y] =>
             let E := fresh "E" in
             destruct (Qle_bool x y) eqn:E;
             [ apply Qle_bool_iff in E
             | assert (~ x <= y) by (intro; assert (Qle_bool x y = true)
                                       by (now apply Qle_bool_iff); congruence);
               clear E ]
         end.

Lemma Qeq_bool_false (x y : Q) : Qeq_bool x y = false <-> ~ x == y.
Proof.
  split.
  - intros H Hq. apply Qeq_bool_iff in Hq. congruence.
  - intros H. destruct (Qeq_bool x y) eqn:E; auto.
    apply Qeq_bool_iff in E. contradiction.
Qed.

Lemma Qlt_bool_true (a b : Q) : Qlt_bool a b = true <-> a < b.
Proof.
  unfold Qlt_bool. destruct (Qle_bool b a) eqn:E; cbn [negb].
  - apply Qle_bool_iff in E. split; [discriminate | lra].
  - split; auto. intros _. destruct (Qlt_le_dec a b) as [H|H]; auto.
    apply Qle_bool_iff in H. congruence.
Qed.

Lemma Qlt_bool_false (a b : Q) : Qlt_bool a b = false <-> b <= a.
Proof.
  unfold Qlt_bool. destruct (Qle_bool b a) eqn:E; cbn [negb].
  - apply Qle_bool_iff in E. tauto.
  - split; [discriminate|]. intros H. apply Qle_bool_iff in H. congruence.
Qed.

(** The two constraints leave the share within [10%, 40%] of the total. *)
Lemma constrained_budget_bounds total_budget total_score score (share : Q) :
  0 < total_budget ->
  constrained_budget total_budget total_score score = Ok share ->
  total_budget * (10 # 100) <= share <= total_budget * (40 # 100).
Proof.
  intros Hpos. unfold constrained_budget, Qdiv_py.
  destruct (Qeq_bool total_score 0); [discriminate|]. cbn [bind].
  intros [= <-]. generalize (score / total_score * total_budget). intros x.
  unfold Qmax_py, Qlt_bool. Qle_cases; cbn [negb];
    unfold Qmin_py, Qlt_bool; Qle_cases; cbn [negb]; lra.
Qed.

Lemma constrained_budget_total total_budget total_score score :
  ~ total_score == 0 ->
  constrained_budget total_budget total_score score
  = Ok (Qmin_py (total_budget * (40 # 100))
          (Qmax_py (total_budget * (10 # 100))
             (score / total_score * total_budget))).
Proof.
  intros HT. unfold constrained_budget.
  rewrite Qdiv_py_nonzero by now apply Qeq_bool_false. reflexivity.
Qed.

Lemma allocate_channel_budget total_budget total_score score (a : Allocation) :
  allocate_channel total_budget total_score score = Ok a ->
  exists share,
    constrained_budget total_budget total_score score = Ok share /\
    budget a = round share 2.
Proof.
  unfold allocate_channel.
  destruct (constrained_budget total_budget total_score score) as [share|];
    [|discriminate].
  cbn [bind]. destruct (Qdiv_py share total_budget); [|discriminate].
  cbn [bind]. intros [= <-]. exists share. split; reflexivity.
Qed.

Lemma allocate_channel_total total_budget total_score score :
  ~ total_score == 0 -> ~ total_budget == 0 ->
  exists a, allocate_channel total_budget total_score score = Ok a.
Proof.
  intros HT Hb. unfold allocate_channel.
  rewrite constrained_budget_total by auto. cbn [bind].
  rewrite Qdiv_py_nonzero by now apply Qeq_bool_false.
  cbn [bind]. eexists. reflexivity.
Qed.

Lemma in_setitem (V : Type) (d : dict V) k (v : V) k' (v' : V) :
  In (k', v') (setitem d k v) -> (k', v') = (k, v) \/ In (k', v') d.
Proof.
  induction d as [|[k0 v0] d IH]; simpl.
  - intros [H|[]]. left. now symmetry.
  - destruct (String.eqb k k0) eqn:E; simpl.
    + apply String.eqb_eq in E. subst. intros [H|H]; [left; now symmetry | auto].
    + intros [H|H]; [auto|]. destruct (IH H); auto.
Qed.

Lemma get_in (V : Type) (d : dict V) k (v : V) : get d k = Some v -> In (k, v) d.
Proof.
  induction d as [|[k0 v0] d IH]; simpl; [discriminate|].
  destruct (String.eqb k k0) eqn:E.
  - apply String.eqb_eq in E. subst. intros [= ->]. now left.
  - intros H. right. auto.
Qed.

Lemma in_get (V : Type) (d : dict V) k (v : V) :
  NoDup (keys d) -> In (k, v) d -> get d k = Some v.
Proof.
  induction d as [|[k0 v0] d IH]; simpl; [intros _ []|].
  intros Hnd. inversion Hnd as [|? ? Hnotin Hnd']; subst.
  intros [[= -> ->]|Hin].
  - now rewrite String.eqb_refl.
  - destruct (String.eqb k k0) eqn:E; auto.
    apply String.eqb_eq in E. subst. exfalso. apply Hnotin.
    change k0 with (fst (k0, v)). now apply in_map.
Qed.



Lemma in_keys_get (V : Type) (d : dict V) k :
  In k (keys d) -> exists v, get d k = Some v.
Proof.
  intros Hin. apply get_some_in_keys in Hin.
  destruct (get d k) as [v|]; [now exists v | congruence].
Qed.

End OptimizerFacts.

Section OptimizerLoops.
Import Optimizer.
Local Open Scope Q_scope.
Implicit Types (total_budget total_score score : Q)
         (channel_performance : dict (dict Q))
         (allocation : dict Allocation).

(** The first loop, from any state of its two accumulators. *)
Lemma score_loop channel_performance : forall acc : dict Q * Q,
  let r := fold_left
             (fun acc cp =>
                (setitem (fst acc) (fst cp) (efficiency (snd cp)),
                 snd acc + efficiency (snd cp)))
             channel_performance acc in
  (NoDup (keys (fst acc)) -> NoDup (keys (fst r))) /\
  (forall c, In c (keys (fst r))
             <-> In c (keys (fst acc)) \/ In c (keys channel_performance)) /\
  (forall c s, In (c, s) (fst r) ->
               In (c, s) (fst acc)
               \/ exists p, In (c, p) channel_performance /\ s = efficiency p) /\
  snd r == snd acc
           + Qsum (map (fun cp => efficiency (snd cp)) channel_performance).
Proof.
  induction channel_performance as [|[k p] perf IH]; intros acc r.
  - subst r. simpl. repeat split; auto; try tauto. lra.
  - subst r. cbn [fold_left].
    specialize (IH (setitem (fst acc) k (efficiency p), snd acc + efficiency p)).
    cbv zeta in IH. cbn [fst snd] in *.
    destruct IH as (Hnd & Hkeys & Hin & Hsum).
    split; [|split; [|split]].
    + intros H. apply Hnd. now apply keys_setitem_NoDup.
    + intros c. rewrite Hkeys, keys_setitem. simpl. intuition congruence.
    + intros c s H. destruct (Hin c s H) as [H1|(p' & H1 & H2)].
      * apply in_setitem in H1. destruct H1 as [[= -> ->]|H1]; auto.
        right. exists p. split; auto. now left.
      * right. exists p'. split; auto. now right.
    + rewrite Hsum. simpl. lra.
Qed.

Lemma score_channels_keys channel_performance :
  NoDup (keys (fst (score_channels channel_performance))) /\
  forall c, In c (keys (fst (score_channels channel_performance)))
            <-> In c (keys channel_performance).
Proof.
  destruct (score_loop channel_performance (empty, 0)) as (Hnd & Hkeys & _).
  split.
  - apply Hnd. constructor.
  - intros c. unfold score_channels. rewrite Hkeys. simpl. tauto.
Qed.

(** Each efficiency score is the score of a performance record of its
    channel, and [total_score] is the sum over all records. *)
Lemma score_channels_scores channel_performance :
  (forall c s, In (c, s) (fst (score_channels channel_performance)) ->
               exists p, In (c, p) channel_performance /\ s = efficiency p) /\
  snd (score_channels channel_performance)
  == Qsum (map (fun cp => efficiency (snd cp)) channel_performance).
Proof.
  destruct (score_loop channel_performance (empty, 0)) as (_ & _ & Hin & Hsum).
  split.
  - intros c s H. destruct (Hin c s H) as [[]|H']; auto.
  - unfold score_channels. rewrite Hsum. simpl. lra.
Qed.




Section SecondLoop.
Variables total_budget total_score : Q.

Let step (acc : result (dict Allocation)) (cs : string * Q) :=
  allocation <- acc ;;
  a <- allocate_channel total_budget total_score (snd cs) ;;
  Ok (setitem allocation (fst cs) a).

Lemma allocation_loop_raise (es : dict Q) (e : exn) :
  fold_left step es (Raise e) = Raise e.
Proof. induction es as [|cs es IH]; simpl; auto. Qed.

Lemma allocation_loop_entries (P : string -> Allocation -> Prop) (es : dict Q) :
  (forall cs a, In cs es ->
                allocate_channel total_budget total_score (snd cs) = Ok a ->
                P (fst cs) a) ->
  forall d0 d,
    fold_left step es (Ok d0) = Ok d ->
    (forall k a, In (k, a) d0 -> P k a) ->
    forall k a, In (k, a) d -> P k a.
Proof.
  induction es as [|cs es IH]; intros Hbody d0 d Hfold Hd0.
  - simpl in Hfold. injection Hfold as <-. exact Hd0.
  - cbn [fold_left] in Hfold. unfold step at 2 in Hfold. cbn [bind] in Hfold.
    destruct (allocate_channel total_budget total_score (snd cs)) as [a0|e] eqn:Ea;
      cbn [bind] in Hfold.
    + apply (IH (fun cs' a' H => Hbody cs' a' (or_intror H)) _ _ Hfold).
      intros k a Hin. apply in_setitem in Hin.
      destruct Hin as [[= -> ->]|Hin]; auto.
      apply Hbody; auto. now left.
    + rewrite allocation_loop_raise in Hfold. discriminate.
Qed.

Lemma allocation_loop_keys (es : dict Q) : forall d0 d,
  fold_left step es (Ok d0) = Ok d ->
  (NoDup (keys d0) -> NoDup (keys d)) /\
  (forall c, In c (keys d) <-> In c (keys d0) \/ In c (keys es)).
Proof.
  induction es as [|cs es IH]; intros d0 d Hfold.
  - simpl in Hfold. injection Hfold as <-. simpl. split; auto. tauto.
  - cbn [fold_left] in Hfold. unfold step at 2 in Hfold. cbn [bind] in Hfold.
    destruct (allocate_channel total_budget total_score (snd cs)) as [a0|e];
      cbn [bind] in Hfold.
    + destruct (IH _ _ Hfold) as (Hnd & Hkeys). split.
      * intros H. apply Hnd. now apply keys_setitem_NoDup.
      * intros c. rewrite Hkeys, keys_setitem. simpl. intuition congruence.
    + rewrite allocation_loop_raise in Hfold. discriminate.
Qed.


Lemma allocation_loop_total (es : dict Q) :
  ~ total_score == 0 -> ~ total_budget == 0 ->
  forall d0, exists d, fold_left step es (Ok d0) = Ok d.
Proof.
  intros HT Hb. induction es as [|cs es IH]; intros d0.
  - exists d0. reflexivity.
  - cbn [fold_left]. unfold step at 2. cbn [bind].
    destruct (allocate_channel_total (snd cs) HT Hb) as (a & ->).
    cbn [bind]. apply IH.
Qed.


End SecondLoop.

End OptimizerLoops.

Section OptimizerClaims.
Import Optimizer.
Local Open Scope string_scope.
Local Open Scope Q_scope.
Implicit Types (total_budget total_score score : Q)
         (channel_performance : dict (dict Q))
         (allocation : dict Allocation).

Ltac plain_numbers :=
  repeat (cbn [snd]; first [apply Forall_nil | apply Forall_cons]);
  right; split; apply Qle_bool_imp_le; vm_compute; reflexivity.

(** C4. For a total budget above 0, every allocation that the first two
    loops of the allocator return has an entry for each channel of the
    input, and each entry is the one of a performance record of its
    channel: the record's share (total * score / sum of scores, after the
    two constraints) lies in [0.10 * total, 0.40 * total], and the stored
    budget is that share rounded to two digits.  The loops do return an
    allocation when there is no channel, and when the total is of moderate
    size and the performance numbers are plain with scores that do not sum
    to 0. *)
Theorem pre_correction_allocation_within_bounds :
  forall total_budget channel_performance,
    0 < total_budget ->
    (channel_performance = []
     \/ (moderate total_budget /\ plain_performance channel_performance /\
         ~ snd (score_channels channel_performance) == 0) ->
     exists allocation,
       proportional_allocation total_budget channel_performance = Ok allocation) /\
    (forall allocation,
        proportional_allocation total_budget channel_performance = Ok allocation ->
        (forall channel,
            In channel (keys channel_performance) ->
            exists a, get allocation channel = Some a) /\
        (forall channel a,
            get allocation channel = Some a ->
            exists p share,
              In (channel, p) channel_performance /\
              constrained_budget total_budget
                                 (snd (score_channels channel_performance))
                                 (efficiency p) = Ok share /\
              total_budget * (10 # 100) <= share <= total_budget * (40 # 100) /\
              budget a = round share 2)).
Proof.
  intros total_budget channel_performance Hpos. split.
  - intros [->|(_ & _ & HT)].
    + exists empty. reflexivity.
    + unfold proportional_allocation. apply allocation_loop_total; auto. lra.
  - intros allocation Halloc. split.
    + intros channel Hin. apply in_keys_get.
      unfold proportional_allocation in Halloc.
      apply (proj2 (allocation_loop_keys _ _ _ _ Halloc)). right.
      now apply score_channels_keys.
    + intros channel a Hget.
      apply get_in in Hget. revert channel a Hget.
      unfold proportional_allocation in Halloc.
      set (P := fun (channel : string) (a : Allocation) =>
                  exists p share,
                    In (channel, p) channel_performance /\
                    constrained_budget total_budget
                       (snd (score_channels channel_performance))
                       (efficiency p) = Ok share /\
                    total_budget * (10 # 100) <= share <= total_budget * (40 # 100) /\
                    budget a = round share 2).
      assert (Hbody : forall cs a,
                 In cs (fst (score_channels channel_performance)) ->
                 allocate_channel total_budget
                    (snd (score_channels channel_performance)) (snd cs) = Ok a ->
                 P (fst cs) a).
      { intros [c s] a' Hin Ha. cbn [fst snd] in *.
        destruct (proj1 (score_channels_scores channel_performance) c s Hin)
          as (p & Hp & ->).
        destruct (@allocate_channel_budget _ _ _ _ Ha) as (share & Hshare & Hb).
        exists p, share. repeat split; auto;
          now apply (@constrained_budget_bounds _ _ _ _ Hpos Hshare). }
      apply (@allocation_loop_entries total_budget _ P _ Hbody empty allocation Halloc).
      intros k a' [].
Qed.

Lemma pre_correction_allocation_witness :
  let perf := [("google_ads", [("roas", 45 # 10); ("cvr", 3 # 100);
                               ("volume_potential", 8 # 10)]);
               ("facebook", [("roas", 28 # 10); ("cvr", 2 # 100);
                             ("volume_potential", 9 # 10)]);
               ("linkedin", [("roas", 52 # 10); ("cvr", 4 # 100);
                             ("volume_potential", 5 # 10)])] in
  exists allocation a share,
    proportional_allocation 10000 perf = Ok allocation /\
    get allocation "facebook" = Some a /\
    10000 * (10 # 100) <= share <= 10000 * (40 # 100) /\
    budget a = round share 2.
Proof.
  intros perf.
  destruct (@pre_correction_allocation_within_bounds 10000 perf)
    as (Hret & Hall); [reflexivity|].
  destruct Hret as (allocation & Halloc).
  { right. split; [|split].
    - apply Qle_bool_imp_le. vm_compute. reflexivity.
    - plain_numbers.
    - discriminate. }
  destruct (Hall allocation Halloc) as (Hkeys & Hentries).
  destruct (Hkeys "facebook") as (a & Ha); [simpl; auto|].
  destruct (Hentries "facebook" a Ha) as (p & share & _ & _ & Hbounds & Hround).
  exists allocation, a, share. auto.
Defined.

(** The budget stored for a channel is the share rounded to two digits,
    which can fall below 10% of the total: with a total of 1000.33 the
    lower constraint is 100.033 and the stored budget is 100.03. *)
Lemma rounded_budget_below_lower_constraint :
  let perf := [("a", [("roas", 100)]);
               ("b", [("roas", 0); ("cvr", 0); ("volume_potential", 0)]);
               ("c", [("roas", 100)])] in
  exists allocation a,
    proportional_allocation (100033 # 100) perf = Ok allocation /\
    get allocation "b" = Some a /\
    budget a == 10003 # 100 /\
    budget a < (100033 # 100) * (10 # 100).
Proof.
  intros perf. eexists. eexists.
  split; [vm_compute; reflexivity|].
  split; [reflexivity|]. split; reflexivity.
Qed.

Lemma max_from_largest (A : Type) (key : A -> Q) (xs : list A) : forall best,
  In (max_from key best xs) (best :: xs) /\
  forall x, In x (best :: xs) -> key x <= key (max_from key best xs).
Proof.
  induction xs as [|y ys IH]; intros best; cbn [max_from].
  - split; [now left|]. intros x [<-|[]]. lra.
  - destruct (IH (if Qlt_bool (key best) (key y) then y else best)) as (Hin & Hmax).
    split.
    + destruct Hin as [Hin|Hin]; [|right; now right].
      rewrite <- Hin. destruct (Qlt_bool (key best) (key y)); simpl; auto.
    + intros x [<-|[<-|Hx]].
      * eapply Qle_trans; [|apply Hmax; now left].
        unfold Qlt_bool.
        destruct (Qle_bool (key y) (key best)) eqn:E; cbn [negb]; [lra|].
        destruct (Qlt_le_dec (key best) (key y)) as [H|H]; [lra|].
        apply Qle_bool_iff in H. congruence.
      * eapply Qle_trans; [|apply Hmax; now left].
        unfold Qlt_bool.
        destruct (Qle_bool (key y) (key best)) eqn:E; cbn [negb]; [|lra].
        now apply Qle_bool_iff in E.
      * apply Hmax. now right.
Qed.








(** The correction can leave the corrected channel above 40% of the
    total: here it ends at 4153.35 of 10000. *)
Lemma correction_can_exceed_upper_constraint :
  let perf := [("google_ads", [("roas", 45 # 10); ("cvr", 3 # 100);
                               ("volume_potential", 8 # 10)]);
               ("facebook", [("roas", 28 # 10); ("cvr", 2 # 100);
                             ("volume_potential", 9 # 10)]);
               ("linkedin", [("roas", 52 # 10); ("cvr", 4 # 100);
                             ("volume_potential", 5 # 10)])] in
  exists final a,
    calculate_optimal_budget_allocation 10000 perf = Ok final /\
    get final "linkedin" = Some a /\
    budget a == 415335 # 100 /\
    10000 * (40 # 100) < budget a.
Proof.
  intros perf. eexists. eexists.
  split; [vm_compute; reflexivity|].
  split; [reflexivity|]. split; reflexivity.
Qed.

End OptimizerClaims.

(** ** The correction of the total on IEEE doubles *)

Section AllocationBinary64.
Import PrimFloat.
Local Open Scope string_scope.
Local Open Scope float_scope.
Local Set Warnings "-inexact-float".

(** In binary floating point the correction can miss the total.  For a
    total of 99.99 on three channels the budgets before the correction are
    35.25, 23.21 and 40.0, their sum is computed as 98.46000000000001, and
    the residual added to the largest budget gives 41.52999999999999: the
    corrected budgets differ from 99.99 as a sum of floats, with either
    [sum], and as exact numbers. *)
Lemma corrected_budgets_miss_total_in_binary64 :
  let perf := [("google_ads", [("roas", 4.5); ("cvr", 0.03);
                               ("volume_potential", 0.8)]);
               ("facebook", [("roas", 2.8); ("cvr", 0.02);
                             ("volume_potential", 0.9)]);
               ("linkedin", [("roas", 5.2); ("cvr", 0.04);
                             ("volume_potential", 0.5)])] in
  exists final (q1 q2 q3 total : Q),
    Binary64.calculate_optimal_budget_allocation Binary64.sum 99.99 perf
    = Some (Ok final) /\
    Binary64.calculate_optimal_budget_allocation Binary64.sum_compensated 99.99 perf
    = Some (Ok final) /\
    map Binary64.budget (values final) = [35.25; 23.21; 41.52999999999999] /\
    Binary64.total_allocated Binary64.sum final = 99.98999999999998 /\
    (Binary64.total_allocated Binary64.sum final =? 99.99) = false /\
    (Binary64.total_allocated Binary64.sum_compensated final =? 99.99) = false /\
    map Binary64.exact (map Binary64.budget (values final))
    = [Some q1; Some q2; Some q3] /\
    Binary64.exact 99.99 = Some total /\
    ~ (q1 + q2 + q3 == total)%Q.
Proof.
  intros perf. eexists. eexists. eexists. eexists. eexists.
  split; [vm_compute; reflexivity|].
  split; [vm_compute; reflexivity|].
  split; [vm_compute; reflexivity|].
  split; [vm_compute; reflexivity|].
  split; [vm_compute; reflexivity|].
  split; [vm_compute; reflexivity|].
  split; [vm_compute; reflexivity|].
  split; [vm_compute; reflexivity|].
  intro H. apply Qeq_bool_iff in H. vm_compute in H. discriminate H.
Qed.

End AllocationBinary64.

(** ** The sum of the credits of each policy *)

Section AttributionTotals.
Import Attribution.
Implicit Types (touchpoints : list Touchpoint).

(** First-click, last-click and linear attribution return credits that
    sum to 1 on every non-empty sequence, and so does time-decay
    attribution for every half-life above 0. *)
Lemma click_linear_and_decay_totals touchpoints :
  touchpoints <> [] ->
  (exists d, first_click_attribution touchpoints = Ok d /\ (Qtotal d == 1)%Q) /\
  (exists d, last_click_attribution touchpoints = Ok d /\ (Qtotal d == 1)%Q) /\
  (exists d, linear_attribution touchpoints = Ok d /\ (Qtotal d == 1)%Q) /\
  (forall h : R, (0 < h)%R ->
     exists d, time_decay_attribution touchpoints h = Ok d /\ Rtotal d = 1%R).
Proof.
  intros Hne.
  destruct touchpoints as [|t0 ts] eqn:Et; [congruence|]. rewrite <- Et in *.
  destruct (@first_last_sound touchpoints t0 Hne) as (Hf & Hl).
  split; [|split; [|split]].
  - eexists. split; [exact Hf|]. unfold Qtotal. simpl. lra.
  - eexists. split; [exact Hl|]. unfold Qtotal. simpl. lra.
  - eexists. split; [now apply linear_attribution_accumulates|].
    rewrite Qtotal_accumulate, map_map. cbn [snd]. rewrite Qsum_const.
    unfold Qtotal. simpl. field.
    pose proof (Qlen_nonzero Hne) as Hz. intro Hq.
    apply Qeq_bool_iff in Hq. congruence.
  - intros h Hh. apply time_decay_total; auto. lra.
Qed.

(** With a first/last weight above 1/2 the credits of the U-shaped
    policy still sum to 1 on distinct channels, and the interior credit
    is negative: for the weight 0.6 on three channels it is -0.2. *)
Lemma u_shaped_negative_interior_credit :
  let a := Build_Touchpoint 1 "linkedin" "2024-01-01T00:00:00" "click" "desktop" in
  let b := Build_Touchpoint 2 "email" "2024-01-06T00:00:00" "click" "mobile" in
  let c := Build_Touchpoint 3 "direct" "2024-01-11T00:00:00" "click" "desktop" in
  exists d,
    u_shaped_attribution [a; b; c] (6 # 10) = Ok d /\
    (Qtotal d == 1)%Q /\
    (getdefault 0 d "email" == - (2 # 10))%Q.
Proof.
  intros a b c. eexists. split; [reflexivity|]. split; reflexivity.
Qed.

End AttributionTotals.

(** ** Relations between the metric operations *)

Section MetricRelations.
Import Metrics.
Local Open Scope string_scope.
Local Open Scope Q_scope.

Ltac to_branches :=
  repeat match goal with
         | |- context [if Qlt_bool ?a ?b then _ else _] => destruct (Qlt_bool a b)
         end.

Lemma inject_Z_nonzero (z : Z) : z <> 0%Z -> ~ inject_Z z == 0.
Proof. intros Hz Hq. unfold Qeq in Hq. simpl in Hq. lia. Qed.

Lemma Qdiv_py_ok (a b : Q) : ~ b == 0 -> Qdiv_py a b = Ok (a / b).
Proof.
  intros Hb. apply Qdiv_py_nonzero.
  destruct (Qeq_bool b 0) eqn:E; auto. apply Qeq_bool_iff in E. contradiction.
Qed.









Lemma ctr_value (clicks impressions : Z) :
  impressions <> 0%Z ->
  returned_value (calculate_ctr clicks impressions)
  = Some (Fin (inject_Z clicks / inject_Z impressions * 100)).
Proof.
  intros H. unfold calculate_ctr.
  rewrite (proj2 (Z.eqb_neq _ _) H), (Qdiv_py_ok _ (inject_Z_nonzero H)).
  cbn. to_branches; reflexivity.
Qed.

Lemma cvr_value (conversions clicks : Z) :
  clicks <> 0%Z ->
  returned_value (calculate_cvr conversions clicks)
  = Some (Fin (inject_Z conversions / inject_Z clicks * 100)).
Proof.
  intros H. unfold calculate_cvr.
  rewrite (proj2 (Z.eqb_neq _ _) H), (Qdiv_py_ok _ (inject_Z_nonzero H)).
  cbn. to_branches; reflexivity.
Qed.

End MetricRelations.

Section MetricProperties.
Import Metrics.
Local Open Scope string_scope.
Local Open Scope Q_scope.

(** X1. No metric operation raises on number arguments of moderate size
    (floats, and ints of magnitude at most [10^300]): each guard covers the
    one division of its operation, and every benchmark and tier key that is
    looked up is present. *)
Theorem metric_operations_never_raise :
  (forall revenue ad_spend,
      moderate revenue -> moderate ad_spend ->
      raises (calculate_roas revenue ad_spend) = false) /\
  (forall revenue total_cost,
      moderate revenue -> moderate total_cost ->
      raises (calculate_roi revenue total_cost) = false) /\
  (forall ad_spend conversions,
      moderate ad_spend -> moderate (inject_Z conversions) ->
      raises (calculate_cpa ad_spend conversions) = false) /\
  (forall ad_spend impressions,
      moderate ad_spend -> moderate (inject_Z impressions) ->
      raises (calculate_cpm ad_spend impressions) = false) /\
  (forall ad_spend clicks,
      moderate ad_spend -> moderate (inject_Z clicks) ->
      raises (calculate_cpc ad_spend clicks) = false) /\
  (forall clicks impressions,
      moderate (inject_Z clicks) -> moderate (inject_Z impressions) ->
      raises (calculate_ctr clicks impressions) = false) /\
  (forall conversions clicks,
      moderate (inject_Z conversions) -> moderate (inject_Z clicks) ->
      raises (calculate_cvr conversions clicks) = false) /\
  (forall tier modifier,
      moderate modifier ->
      raises (calculate_ltv tier modifier) = false) /\
  (forall cost customers,
      moderate cost -> moderate (inject_Z customers) ->
      raises (calculate_cac cost customers) = false) /\
  (forall revenue spend,
      moderate revenue -> moderate spend ->
      raises (calculate_mer revenue spend) = false) /\
  (forall profit_margin,
      moderate profit_margin ->
      raises (calculate_breakeven_roas profit_margin) = false).
Proof.
  destruct ratio_metrics_never_raise
    as (H1 & H2 & H3 & H4 & H5 & H6 & H7 & H8 & H9).
  destruct ltv_and_breakeven_never_raise as (H10 & H11).
  repeat split; auto.
Qed.

Lemma metric_operations_never_raise_witness :
  raises (calculate_roas 359400 10000) = false /\
  raises (calculate_cpm 10000 0) = false /\
  raises (calculate_ctr 1250 50000) = false /\
  raises (calculate_ltv "platinum" 1) = false.
Proof.
  assert (Hmod : forall z : Z, (Z.abs z <= 10 ^ 300)%Z -> moderate (inject_Z z)).
  { intros z Hz. unfold moderate, Qle, Qabs, inject_Z. simpl Qnum. simpl Qden. lia. }
  destruct metric_operations_never_raise
    as (Hroas & _ & _ & Hcpm & _ & Hctr & _ & Hltv & _).
  split; [|split; [|split]].
  - apply (Hroas 359400 10000); apply (Hmod 359400%Z) || apply (Hmod 10000%Z);
      vm_compute; discriminate.
  - apply (Hcpm 10000 0%Z); apply (Hmod 10000%Z) || apply (Hmod 0%Z);
      vm_compute; discriminate.
  - apply (Hctr 1250%Z 50000%Z); apply Hmod; vm_compute; discriminate.
  - apply (Hltv "platinum" 1). apply (Hmod 1%Z). vm_compute. discriminate.
Defined.





(** X4. For a profit margin in (0, 1], the break-even ROAS is the
    reciprocal of the margin: it is at least 1, and times the margin it
    is 1. *)
Theorem breakeven_roas_is_reciprocal_margin :
  forall profit_margin,
    0 < profit_margin -> profit_margin <= 1 ->
    exists breakeven,
      returned_value (calculate_breakeven_roas profit_margin) = Some (Fin breakeven) /\
      breakeven * profit_margin == 1 /\
      1 <= breakeven.
Proof.
  intros m Hpos Hle. exists (1 / m).
  assert (Hm : ~ m == 0) by lra.
  split; [|split].
  - unfold calculate_breakeven_roas.
    replace (Qle_bool m 0) with false.
    + unfold Qlt_bool. replace (Qle_bool m 1) with true
        by (symmetry; now apply Qle_bool_iff).
      cbn [negb orb]. rewrite (Qdiv_py_ok _ Hm). reflexivity.
    + symmetry. destruct (Qle_bool m 0) eqn:E; auto.
      apply Qle_bool_iff in E. lra.
  - field. exact Hm.
  - apply Qle_shift_div_l; [exact Hpos | lra].
Qed.

Lemma breakeven_roas_witness :
  exists breakeven,
    returned_value (calculate_breakeven_roas (7 # 10)) = Some (Fin breakeven) /\
    breakeven * (7 # 10) == 1 /\
    1 <= breakeven.
Proof.
  apply (@breakeven_roas_is_reciprocal_margin (7 # 10)).
  - reflexivity.
  - discriminate.
Defined.




(** X7. For counts with 0 <= clicks <= impressions and impressions other
    than 0, the click-through rate is a percentage between 0 and 100; the
    same holds for the conversion rate of conversions over clicks. *)
Theorem rates_are_percentages :
  forall part whole : Z,
    (0 <= part)%Z -> (part <= whole)%Z -> whole <> 0%Z ->
    exists ctr cvr,
      returned_value (calculate_ctr part whole) = Some (Fin ctr) /\
      returned_value (calculate_cvr part whole) = Some (Fin cvr) /\
      0 <= ctr <= 100 /\ 0 <= cvr <= 100.
Proof.
  intros part whole H0 Hle Hne.
  exists (inject_Z part / inject_Z whole * 100), (inject_Z part / inject_Z whole * 100).
  rewrite ctr_value, cvr_value by auto.
  split; [reflexivity|]. split; [reflexivity|].
  assert (Hw : 0 < inject_Z whole).
  { change 0 with (inject_Z 0). rewrite <- Zlt_Qlt. lia. }
  assert (Hp : 0 <= inject_Z part).
  { change 0 with (inject_Z 0). rewrite <- Zle_Qle. lia. }
  assert (Hpw : inject_Z part <= inject_Z whole) by (rewrite <- Zle_Qle; lia).
  assert (Hlo : 0 <= inject_Z part / inject_Z whole).
  { apply Qle_shift_div_l; [exact Hw|]. lra. }
  assert (Hhi : inject_Z part / inject_Z whole <= 1).
  { apply Qle_shift_div_r; [exact Hw|]. lra. }
  generalize dependent (inject_Z part / inject_Z whole). intros q Hlo Hhi.
  repeat split; lra.
Qed.

Lemma rates_are_percentages_witness :
  exists ctr cvr,
    returned_value (calculate_ctr 2500 100000) = Some (Fin ctr) /\
    returned_value (calculate_cvr 2500 100000) = Some (Fin cvr) /\
    0 <= ctr <= 100 /\ 0 <= cvr <= 100.
Proof. apply (@rates_are_percentages 2500 100000); lia. Defined.

End MetricProperties.

(** ** Further properties of the attribution policies *)

Section AttributionProperties.
Import Attribution.
Implicit Types (touchpoints : list Touchpoint) (c : string).

(** X8. On every non-empty sequence the credits of first-click,
    last-click and linear attribution sum to 1, and so do the credits of
    time-decay attribution for every half-life above 0. *)
Theorem credits_of_four_policies_sum_to_one :
  forall touchpoints,
    touchpoints <> [] ->
    (exists d, first_click_attribution touchpoints = Ok d /\ (Qtotal d == 1)%Q) /\
    (exists d, last_click_attribution touchpoints = Ok d /\ (Qtotal d == 1)%Q) /\
    (exists d, linear_attribution touchpoints = Ok d /\ (Qtotal d == 1)%Q) /\
    (forall h : R, (0 < h)%R ->
       exists d, time_decay_attribution touchpoints h = Ok d /\ Rtotal d = 1%R).
Proof. exact click_linear_and_decay_totals. Qed.

Lemma credits_of_four_policies_witness :
  let a := Build_Touchpoint 1 "google_ads" "2024-09-01T10:00:00" "click" "desktop" in
  let b := Build_Touchpoint 2 "facebook" "2024-09-05T14:00:00" "click" "mobile" in
  exists d, linear_attribution [a; b; a] = Ok d /\ (Qtotal d == 1)%Q.
Proof.
  intros a b.
  destruct (@credits_of_four_policies_sum_to_one [a; b; a]) as (_ & _ & H & _).
  - discriminate.
  - exact H.
Defined.





(** X11. With a half-life of 0, time-decay attribution raises
    [ZeroDivisionError] on every non-empty sequence. *)
Theorem time_decay_zero_half_life_raises :
  forall touchpoints,
    touchpoints <> [] ->
    time_decay_attribution touchpoints 0%R = Raise ZeroDivisionError.
Proof.
  intros [|t ts] Hne; [congruence|].
  unfold time_decay_attribution. cbn [is_empty List.length seq mapM].
  unfold decay_weight at 1, Rdiv_py at 1.
  destruct (Req_dec_T 0 0) as [_|H]; [reflexivity | now elim H].
Qed.

Lemma time_decay_zero_half_life_witness :
  time_decay_attribution
    [Build_Touchpoint 1 "email" "2024-09-08T09:00:00" "click" "mobile"] 0%R
  = Raise ZeroDivisionError.
Proof. apply time_decay_zero_half_life_raises. discriminate. Defined.

(** X12. No attribution policy raises on any sequence, empty or not:
    first-click, last-click and linear attribution, U-shaped attribution
    for every first/last weight of moderate size, and time-decay
    attribution for every half-life above 0. *)
Theorem attribution_policies_never_raise :
  forall touchpoints,
    raises (first_click_attribution touchpoints) = false /\
    raises (last_click_attribution touchpoints) = false /\
    raises (linear_attribution touchpoints) = false /\
    (forall w : Q, moderate w ->
                   raises (u_shaped_attribution touchpoints w) = false) /\
    (forall h : R, (0 < h)%R ->
                   raises (time_decay_attribution touchpoints h) = false).
Proof.
  intros [|t ts].
  - repeat split; intros; reflexivity.
  - assert (Hne : t :: ts <> []) by discriminate.
    destruct (first_last_sound t Hne) as (Hf & Hl).
    split; [|split; [|split; [|split]]].
    + now rewrite Hf.
    + now rewrite Hl.
    + now rewrite (linear_attribution_accumulates Hne).
    + intros w _. destruct (u_shaped_total t w Hne) as (d & -> & _). reflexivity.
    + intros h Hh. rewrite (@time_decay_accumulates (t :: ts) h Hne); [reflexivity|].
      apply Rgt_not_eq. exact Hh.
Qed.

Lemma attribution_policies_never_raise_witness :
  raises (time_decay_attribution
            [Build_Touchpoint 1 "email" "2024-09-08T09:00:00" "click" "mobile"]
            default_half_life_days) = false /\
  raises (u_shaped_attribution
            [Build_Touchpoint 1 "email" "2024-09-08T09:00:00" "click" "mobile"]
            default_first_last_weight) = false.
Proof.
  destruct (attribution_policies_never_raise
              [Build_Touchpoint 1 "email" "2024-09-08T09:00:00" "click" "mobile"])
    as (_ & _ & _ & Hu & Hd).
  split.
  - apply Hd. unfold default_half_life_days. lra.
  - apply Hu. unfold moderate, default_first_last_weight, Qle. vm_compute.
    discriminate.
Defined.

End AttributionProperties.

Section LinearProperties.
Import Attribution.
Local Open Scope Q_scope.
Implicit Types (touchpoints : list Touchpoint) (c : string).

(** The credit linear attribution gives to any channel. *)
Lemma linear_credit_of touchpoints :
  touchpoints <> [] ->
  exists d,
    linear_attribution touchpoints = Ok d /\
    (forall c, In c (keys d) <-> In c (channels touchpoints)) /\
    (forall c, getdefault 0 d c
               == inject_Z (Z.of_nat (count_channel c touchpoints)) / Qlen touchpoints).
Proof.
  intros Hne. eexists. split; [now apply linear_attribution_accumulates|]. split.
  - intros c. rewrite keys_accumulate, map_fst_channel_weight. simpl. tauto.
  - intros c. rewrite Qgetdefault_accumulate, Qcredit_constant_weight.
    unfold getdefault. simpl. field.
    pose proof (Qlen_nonzero Hne) as Hz. intro Hq.
    apply Qeq_bool_iff in Hq. congruence.
Qed.

Lemma count_channel_permutation c touchpoints touchpoints' :
  Permutation touchpoints touchpoints' ->
  count_channel c touchpoints = count_channel c touchpoints'.
Proof.
  unfold count_channel. intros Hp. induction Hp as [|t l l' Hp IH|t t' l|l l' l'' _ IH1 _ IH2].
  - reflexivity.
  - simpl. destruct (String.eqb (channel t) c); simpl; congruence.
  - simpl. destruct (String.eqb (channel t) c), (String.eqb (channel t') c); reflexivity.
  - congruence.
Qed.

(** X13. Linear attribution does not depend on the order of the
    touchpoints: on two orderings of one non-empty sequence it returns
    mappings with the same channels and the same credit for each. *)
Theorem linear_attribution_ignores_order :
  forall touchpoints touchpoints',
    Permutation touchpoints touchpoints' ->
    touchpoints <> [] ->
    exists d d',
      linear_attribution touchpoints = Ok d /\
      linear_attribution touchpoints' = Ok d' /\
      (forall c, In c (keys d) <-> In c (keys d')) /\
      (forall c, getdefault 0 d c == getdefault 0 d' c).
Proof.
  intros touchpoints touchpoints' Hp Hne.
  assert (Hne' : touchpoints' <> []).
  { intros ->. apply Permutation_sym, Permutation_nil in Hp. contradiction. }
  destruct (linear_credit_of Hne) as (d & Hd & Hk & Hc).
  destruct (linear_credit_of Hne') as (d' & Hd' & Hk' & Hc').
  exists d, d'. repeat split; auto.
  - rewrite Hk. intros H. apply Hk'. unfold channels.
    eapply Permutation_in; [apply Permutation_map, Hp | exact H].
  - rewrite Hk'. intros H. apply Hk. unfold channels.
    eapply Permutation_in; [apply Permutation_map, Permutation_sym, Hp | exact H].
  - intros c. rewrite Hc, Hc'. unfold Qlen.
    now rewrite (count_channel_permutation c Hp), (Permutation_length Hp).
Qed.

Lemma linear_attribution_ignores_order_witness :
  let a := Build_Touchpoint 1 "google_ads" "2024-09-01T10:00:00" "click" "desktop" in
  let b := Build_Touchpoint 2 "facebook" "2024-09-05T14:00:00" "click" "mobile" in
  exists d d',
    linear_attribution [a; b; a] = Ok d /\
    linear_attribution [b; a; a] = Ok d' /\
    (forall c, In c (keys d) <-> In c (keys d')) /\
    (forall c, getdefault 0 d c == getdefault 0 d' c).
Proof.
  intros a b. apply linear_attribution_ignores_order.
  - apply perm_swap.
  - discriminate.
Defined.

Lemma count_channel_bounds c touchpoints :
  In c (channels touchpoints) ->
  (1 <= count_channel c touchpoints <= List.length touchpoints)%nat.
Proof.
  unfold count_channel, channels. intros Hin. split.
  - apply in_map_iff in Hin. destruct Hin as (t & Ht & Hin).
    assert (Hf : In t (filter (fun t => String.eqb (channel t) c) touchpoints)).
    { apply filter_In. split; auto. now apply String.eqb_eq. }
    destruct (filter (fun t => String.eqb (channel t) c) touchpoints);
      [contradiction | simpl; lia].
  - apply filter_length_le.
Qed.

(** X14. Every credit in the mapping that linear attribution returns for
    a non-empty sequence is above 0 and at most 1. *)
Theorem linear_credits_are_fractions :
  forall touchpoints,
    touchpoints <> [] ->
    exists d,
      linear_attribution touchpoints = Ok d /\
      forall c v, get d c = Some v -> 0 < v <= 1.
Proof.
  intros touchpoints Hne.
  destruct (linear_credit_of Hne) as (d & Hd & Hk & Hc).
  exists d. split; auto. intros c v Hget.
  assert (Hin : In c (channels touchpoints)).
  { apply Hk, get_some_in_keys. congruence. }
  specialize (Hc c). unfold getdefault in Hc. rewrite Hget in Hc.
  destruct (count_channel_bounds c touchpoints Hin) as (Hlo & Hhi).
  assert (Hn : 0 < Qlen touchpoints).
  { unfold Qlen. change 0 with (inject_Z 0). rewrite <- Zlt_Qlt.
    destruct touchpoints; [congruence | simpl; lia]. }
  rewrite Hc. split.
  - apply Qlt_shift_div_l; auto. rewrite Qmult_0_l.
    change 0 with (inject_Z 0). rewrite <- Zlt_Qlt. lia.
  - apply Qle_shift_div_r; auto. rewrite Qmult_1_l. unfold Qlen.
    rewrite <- Zle_Qle. lia.
Qed.

Lemma linear_credits_are_fractions_witness :
  let a := Build_Touchpoint 1 "google_ads" "2024-09-01T10:00:00" "click" "desktop" in
  let b := Build_Touchpoint 2 "facebook" "2024-09-05T14:00:00" "click" "mobile" in
  exists d,
    linear_attribution [a; b; a] = Ok d /\
    forall c v, get d c = Some v -> 0 < v <= 1.
Proof. intros a b. apply linear_credits_are_fractions. discriminate. Defined.

End LinearProperties.

Section UShapedRange.
Import Attribution.
Local Open Scope Q_scope.
Implicit Types (touchpoints mid : list Touchpoint) (c : string) (d : dict Q).

Lemma additem_nonnegative d k (w : Q) :
  (forall k' v, In (k', v) d -> 0 <= v) -> 0 <= w ->
  forall k' v, In (k', v) (additem Qplus 0 d k w) -> 0 <= v.
Proof.
  intros Hd Hw k' v Hin. unfold additem in Hin.
  apply in_setitem in Hin. destruct Hin as [[= -> ->]|Hin]; [|eauto].
  unfold getdefault. destruct (get d k) as [v0|] eqn:E; [|lra].
  apply get_in in E. specialize (Hd _ _ E). lra.
Qed.

Lemma accumulate_nonnegative (cws : list (string * Q)) : forall d,
  (forall k v, In (k, v) d -> 0 <= v) ->
  (forall cw, In cw cws -> 0 <= snd cw) ->
  forall k v, In (k, v) (accumulate Qplus 0 d cws) -> 0 <= v.
Proof.
  induction cws as [|[k0 w0] cws IH]; intros d Hd Hw; [exact Hd|].
  unfold accumulate in *. cbn [fold_left fst snd]. apply IH.
  - apply additem_nonnegative; auto. apply (Hw (k0, w0)). now left.
  - intros cw Hin. apply Hw. now right.
Qed.

Lemma entry_at_most_total d :
  (forall k v, In (k, v) d -> 0 <= v) ->
  forall k v, In (k, v) d -> v <= Qtotal d.
Proof.
  unfold Qtotal, values. induction d as [|[k0 v0] d IH]; intros Hd k v Hin; [contradiction|].
  cbn [map snd Qsum fold_right].
  assert (Hrest : 0 <= Qsum (map snd d)).
  { clear - Hd. induction d as [|[k1 v1] d IH]; simpl; [lra|].
    assert (Hv1 : 0 <= v1) by (apply (Hd k1); right; now left).
    assert (Hsum : 0 <= Qsum (map snd d)); [|unfold Qsum in *; lra].
    apply IH. intros k v [Hin|Hin]; [apply (Hd k); left; exact Hin|].
    apply (Hd k). right. now right. }
  destruct Hin as [[= -> ->]|Hin].
  - unfold Qsum in *. lra.
  - assert (0 <= v0) by (apply (Hd k0); now left).
    assert (v <= fold_right Qplus 0 (map snd d)).
    { apply (IH (fun k' v' H' => Hd k' v' (or_intror H')) k v Hin). }
    lra.
Qed.

Lemma middle_credit_nonnegative (t0 tl : Touchpoint) mid (w : Q) :
  mid <> [] -> w <= 1 # 2 ->
  0 <= middle_credit_of (List.length (t0 :: mid ++ [tl])) w.
Proof.
  intros Hmid Hw. unfold middle_credit_of. fold (Qlen (t0 :: mid ++ [tl])).
  assert (Hpos : 0 < Qlen (t0 :: mid ++ [tl]) - 2).
  { rewrite Qlen_ends. unfold Qlen. change 0 with (inject_Z 0).
    rewrite <- Zlt_Qlt. destruct mid; [congruence | simpl; lia]. }
  apply Qle_shift_div_l; [exact Hpos | lra].
Qed.

(** X15. For a first/last weight [w] with [0 <= w <= 1/2], every credit in
    the mapping that the U-shaped policy returns for a non-empty sequence
    lies between 0 and 1. *)
Theorem u_shaped_credits_are_fractions :
  forall touchpoints (w : Q),
    0 <= w -> w <= 1 # 2 ->
    touchpoints <> [] ->
    exists d,
      u_shaped_attribution touchpoints w = Ok d /\
      forall c v, get d c = Some v -> 0 <= v <= 1.
Proof.
  intros touchpoints w Hw0 Hw1 Hne.
  destruct touchpoints as [|t0 rest]; [congruence|].
  destruct (u_shaped_total t0 w Hne) as (d & Hd & Hsum).
  exists d. split; [exact Hd|].
  assert (Hnonneg : forall k v, In (k, v) d -> 0 <= v).
  { destruct rest as [|t1 [|t2 rest']].
    - rewrite u_shaped_one in Hd. injection Hd as <-.
      intros k v [[= <- <-]|[]]. lra.
    - rewrite u_shaped_two in Hd. injection Hd as <-.
      intros k v Hin.
      destruct (String.eqb (channel t1) (channel t0)); simpl in Hin;
        repeat (destruct Hin as [[= <- <-]|Hin]; [lra|]); contradiction.
    - destruct (@split_ends _ (t0 :: t1 :: t2 :: rest')) as (x0 & mid & xl & Heq & Hmid);
        [simpl; lia|].
      rewrite Heq in Hd. rewrite (u_shaped_many x0 xl w Hmid) in Hd.
      injection Hd as <-. apply accumulate_nonnegative.
      + intros k v Hin.
        destruct (String.eqb (channel xl) (channel x0)); simpl in Hin;
          repeat (destruct Hin as [[= <- <-]|Hin]; [lra|]); contradiction.
      + intros cw Hin. apply in_map_iff in Hin. destruct Hin as (t & <- & _).
        cbn [snd]. now apply (@middle_credit_nonnegative x0 xl mid w). }
  intros c v Hget. apply get_in in Hget. split; [eauto|].
  apply Qle_trans with (Qtotal d); [now apply (@entry_at_most_total d Hnonneg c)|].
  rewrite Hsum.
  destruct (List.length (t0 :: rest) =? 1)%nat; [lra|].
  destruct (negb (String.eqb (channel (last (t0 :: rest) t0))
                             (channel (hd t0 (t0 :: rest))))); [lra|].
  destruct (List.length (t0 :: rest) =? 2)%nat; lra.
Qed.

Lemma u_shaped_credits_are_fractions_witness :
  let a := Build_Touchpoint 1 "google_ads" "2024-09-01T10:00:00" "click" "desktop" in
  let b := Build_Touchpoint 2 "facebook" "2024-09-05T14:00:00" "click" "mobile" in
  exists d,
    u_shaped_attribution [a; b; a; b] (4 # 10) = Ok d /\
    forall c v, get d c = Some v -> 0 <= v <= 1.
Proof.
  intros a b. apply u_shaped_credits_are_fractions.
  - discriminate.
  - discriminate.
  - discriminate.
Defined.

End UShapedRange.

Section TimeDecayProperties.
Import Attribution.
Local Open Scope R_scope.
Implicit Types (touchpoints : list Touchpoint) (c : string) (h : R).

Lemma Rcredit_at_most_total c (cws : list (string * R)) :
  (forall cw, In cw cws -> 0 < snd cw) ->
  0 <= Rcredit c cws <= Rsum (map snd cws).
Proof.
  induction cws as [|[k w] cws IH]; intros Hpos.
  - unfold Rcredit. simpl. lra.
  - rewrite Rcredit_cons. cbn [map snd Rsum fold_right].
    assert (0 < w) by (apply (Hpos (k, w)); now left).
    assert (0 <= Rcredit c cws <= Rsum (map snd cws))
      by (apply IH; intros cw Hin; apply Hpos; now right).
    unfold Rsum in *. destruct (String.eqb k c); lra.
Qed.

Lemma Rcredit_positive c (cws : list (string * R)) :
  (forall cw, In cw cws -> 0 < snd cw) ->
  In c (map fst cws) -> 0 < Rcredit c cws.
Proof.
  induction cws as [|[k w] cws IH]; intros Hpos Hin; [contradiction|].
  rewrite Rcredit_cons.
  assert (0 < w) by (apply (Hpos (k, w)); now left).
  assert (Hrest : 0 <= Rcredit c cws).
  { apply Rcredit_at_most_total. intros cw H'. apply Hpos. now right. }
  destruct (String.eqb k c) eqn:E; [lra|].
  destruct Hin as [Hk|Hin].
  - simpl in Hk. subst. now rewrite String.eqb_refl in E.
  - assert (0 < Rcredit c cws); [|lra].
    apply IH; auto. intros cw H'. apply Hpos. now right.
Qed.

Lemma normalized_weight_positive (n : nat) h (i : nat) :
  (0 < n)%nat -> 0 < normalized_weight n h i.
Proof.
  intros Hn. unfold normalized_weight. apply Rdiv_lt_0_compat.
  - apply raw_weight_positive.
  - now apply total_weight_positive.
Qed.

Lemma Rweighted_positive touchpoints h :
  touchpoints <> [] ->
  forall cw,
    In cw (Rweighted touchpoints (normalized_weight (List.length touchpoints) h)) ->
    0 < snd cw.
Proof.
  intros Hne [k w] Hin. unfold Rweighted in Hin. apply in_combine_r in Hin.
  apply in_map_iff in Hin. destruct Hin as (i & <- & _). cbn [snd].
  apply normalized_weight_positive. now apply length_positive.
Qed.

(** X16. Every credit in the mapping that time-decay attribution returns
    for a non-empty sequence and a half-life above 0 is at least 0 and at
    most 1. *)
Theorem time_decay_credits_are_fractions :
  forall touchpoints h,
    0 < h -> touchpoints <> [] ->
    exists d,
      time_decay_attribution touchpoints h = Ok d /\
      forall c v, get d c = Some v -> 0 <= v <= 1.
Proof.
  intros touchpoints h Hpos Hne.
  assert (Hh : h <> 0) by lra.
  eexists. split; [now apply time_decay_accumulates|].
  intros c v Hget.
  assert (Hin : In c (map fst (Rweighted touchpoints
                                 (normalized_weight (List.length touchpoints) h)))).
  { assert (Hk : In c (keys (accumulate Rplus 0 empty
             (Rweighted touchpoints (normalized_weight (List.length touchpoints) h)))))
      by (apply get_some_in_keys; congruence).
    rewrite keys_accumulate in Hk. destruct Hk as [[]|Hk]. exact Hk. }
  pose proof (Rgetdefault_accumulate
                (Rweighted touchpoints (normalized_weight (List.length touchpoints) h))
                empty c) as Hc.
  unfold getdefault in Hc at 1. rewrite Hget in Hc.
  unfold getdefault in Hc. simpl in Hc. rewrite Rplus_0_l in Hc. subst v.
  split.
  - apply Rlt_le. apply Rcredit_positive; auto. now apply Rweighted_positive.
  - eapply Rle_trans;
      [apply Rcredit_at_most_total; now apply Rweighted_positive|].
    unfold Rweighted. rewrite snd_combine by apply Rweighted_lengths.
    rewrite normalized_weights_sum_to_one by now apply length_positive. lra.
Qed.

Lemma time_decay_credits_are_fractions_witness :
  let a := Build_Touchpoint 1 "google_ads" "2024-09-01T10:00:00" "click" "desktop" in
  let b := Build_Touchpoint 2 "facebook" "2024-09-05T14:00:00" "click" "mobile" in
  exists d,
    time_decay_attribution [a; b; a] default_half_life_days = Ok d /\
    forall c v, get d c = Some v -> 0 <= v <= 1.
Proof.
  intros a b. apply time_decay_credits_are_fractions.
  - unfold default_half_life_days. lra.
  - discriminate.
Defined.

(** The credit of the channel at one position, on distinct channels. *)
Lemma time_decay_credit_at touchpoints h (k : nat) (t : Touchpoint) :
  NoDup (channels touchpoints) -> h <> 0 ->
  nth_error touchpoints k = Some t ->
  exists d,
    time_decay_attribution touchpoints h = Ok d /\
    get d (channel t) = Some (normalized_weight (List.length touchpoints) h k).
Proof.
  intros Hnd Hh Hk.
  assert (Hne : touchpoints <> []) by (destruct touchpoints; [destruct k|]; discriminate).
  assert (Hkn : (k < List.length touchpoints)%nat) by (apply nth_error_Some; congruence).
  eexists. split; [now apply time_decay_accumulates|].
  set (n := List.length touchpoints) in *.
  set (d := accumulate Rplus 0 empty (Rweighted touchpoints (normalized_weight n h))).
  assert (Hin : In (channel t) (keys d)).
  { unfold d. rewrite keys_accumulate. right. unfold Rweighted.
    rewrite fst_combine by apply Rweighted_lengths.
    unfold channels. apply in_map. eapply nth_error_In; eauto. }
  apply get_some_in_keys in Hin.
  pose proof (Rgetdefault_accumulate
                (Rweighted touchpoints (normalized_weight n h)) empty (channel t))
    as Hget.
  fold d in Hget. unfold getdefault in Hget at 1.
  destruct (get d (channel t)) as [v|]; [|congruence].
  f_equal. rewrite Hget. unfold getdefault. simpl. unfold Rweighted.
  rewrite (@Rcredit_distinct (channels touchpoints) _ k (channel t)
             (normalized_weight n h k) Hnd (Rweighted_lengths _ _)).
  - lra.
  - unfold channels. now rewrite nth_error_map, Hk.
  - rewrite nth_error_map, nth_error_seq. fold n.
    rewrite (proj2 (Nat.ltb_lt k n) Hkn). reflexivity.
Qed.

(** X17. The half-life is the distance at which the credit halves: on
    pairwise distinct channels and with a half-life of [k >= 1] positions,
    the channel of position [i + k] has exactly twice the credit of the
    channel of position [i]. *)
Theorem time_decay_credit_doubles_each_half_life :
  forall touchpoints (k i : nat) (ti tj : Touchpoint),
    NoDup (channels touchpoints) ->
    (1 <= k)%nat ->
    nth_error touchpoints i = Some ti ->
    nth_error touchpoints (i + k) = Some tj ->
    exists d vi vj,
      time_decay_attribution touchpoints (INR k) = Ok d /\
      get d (channel ti) = Some vi /\
      get d (channel tj) = Some vj /\
      vj = 2 * vi.
Proof.
  intros touchpoints k i ti tj Hnd Hk Hi Hj.
  assert (Hh : INR k <> 0) by (apply not_0_INR; lia).
  destruct (@time_decay_credit_at touchpoints (INR k) i ti Hnd Hh Hi)
    as (d & Hd & Hvi).
  destruct (@time_decay_credit_at touchpoints (INR k) (i + k) tj Hnd Hh Hj)
    as (d' & Hd' & Hvj).
  rewrite Hd in Hd'. injection Hd' as <-.
  exists d, (normalized_weight (List.length touchpoints) (INR k) i),
         (normalized_weight (List.length touchpoints) (INR k) (i + k)).
  repeat split; auto.
  assert (Hjn : (i + k < List.length touchpoints)%nat)
    by (apply nth_error_Some; congruence).
  set (n := List.length touchpoints) in *.
  unfold normalized_weight.
  assert (Hraw : raw_weight n (INR k) i = raw_weight n (INR k) (i + k) * (1 / 2)).
  { unfold raw_weight.
    replace (INR (n - 1 - i) / INR k) with (INR (n - 1 - (i + k)) / INR k + 1).
    - rewrite Rpower_plus, Rpower_1 by lra. reflexivity.
    - replace (n - 1 - i)%nat with ((n - 1 - (i + k)) + k)%nat by lia.
      rewrite plus_INR. field. exact Hh. }
  rewrite Hraw. field.
  apply Rgt_not_eq. apply total_weight_positive. lia.
Qed.

Lemma time_decay_credit_doubles_witness :
  let a := Build_Touchpoint 1 "google_ads" "2024-09-01T10:00:00" "click" "desktop" in
  let b := Build_Touchpoint 2 "facebook" "2024-09-05T14:00:00" "click" "mobile" in
  let c := Build_Touchpoint 3 "email" "2024-09-08T09:00:00" "click" "mobile" in
  exists d vi vj,
    time_decay_attribution [a; b; c] (INR 2) = Ok d /\
    get d "google_ads"%string = Some vi /\
    get d "email"%string = Some vj /\
    vj = 2 * vi.
Proof.
  intros a b c.
  apply (@time_decay_credit_doubles_each_half_life [a; b; c] 2%nat 0%nat a c).
  - repeat constructor; simpl; intuition discriminate.
  - lia.
  - reflexivity.
  - reflexivity.
Defined.

End TimeDecayProperties.

(** ** The lookback window *)

Section LookbackProperties.
Import Attribution.
Variable fromisoformat : string -> result Z.
Implicit Types (touchpoints kept : list Touchpoint) (cutoff : Z).

Lemma filterM_window cutoff touchpoints kept :
  filterM (within_window fromisoformat cutoff) touchpoints = Ok kept <->
  Forall (parses fromisoformat) touchpoints /\
  kept = filter (in_window fromisoformat cutoff) touchpoints.
Proof.
  revert kept. induction touchpoints as [|tp tps IH]; intros kept.
  - simpl. split.
    + intros [= <-]. split; [constructor | reflexivity].
    + intros [_ ->]. reflexivity.
  - cbn [filterM filter]. unfold within_window at 1, in_window at 1.
    destruct (fromisoformat (timestamp tp)) as [t|e] eqn:Et; cbn [bind].
    + destruct (filterM (within_window fromisoformat cutoff) tps) as [rest|e] eqn:Er;
        cbn [bind].
      * destruct (proj1 (IH rest) eq_refl) as (Hall & ->). split.
        -- intros [= <-]. split; [|reflexivity].
           constructor; [now exists t | exact Hall].
        -- intros [_ ->]. reflexivity.
      * split; [discriminate|]. intros [Hall _]. inversion Hall as [|? ? _ Hall']; subst.
        pose proof (proj2 (IH _) (conj Hall' eq_refl)) as Habs. discriminate Habs.
    + split; [discriminate|]. intros [Hall _].
      inversion Hall as [|? ? [t Ht] _]; subst. congruence.
Qed.

(** X18. When the lookback filter returns, every timestamp of the
    sequence has parsed and the result is, in their original order, the
    touchpoints whose instant is at or after the conversion instant less
    the window; a timestamp that does not parse makes the call raise, also
    when its touchpoint would be outside the window. *)
Theorem lookback_keeps_touchpoints_in_window :
  forall (lookback_window : Z) touchpoints (conversion_date : Z),
    (forall kept,
        apply_lookback_window fromisoformat lookback_window touchpoints
                              conversion_date = Ok kept ->
        Forall (parses fromisoformat) touchpoints /\
        kept = filter (in_window fromisoformat
                         (conversion_date - timedelta_days lookback_window))
                      touchpoints) /\
    (forall tp e,
        In tp touchpoints ->
        fromisoformat (timestamp tp) = Raise e ->
        raises (apply_lookback_window fromisoformat lookback_window touchpoints
                                      conversion_date) = true).
Proof.
  intros w touchpoints conv. unfold apply_lookback_window. split.
  - intros kept H. now apply filterM_window.
  - intros tp e Hin He.
    destruct (filterM (within_window fromisoformat (conv - timedelta_days w))
                      touchpoints) as [kept|e'] eqn:E; [|reflexivity].
    apply filterM_window in E. destruct E as (Hall & _).
    rewrite Forall_forall in Hall. destruct (Hall tp Hin) as (t & Ht). congruence.
Qed.

Lemma filter_parses cutoff touchpoints :
  Forall (parses fromisoformat) touchpoints ->
  Forall (parses fromisoformat) (filter (in_window fromisoformat cutoff) touchpoints).
Proof.
  intros Hall. apply Forall_forall. intros tp Hin.
  apply filter_In in Hin. destruct Hin as (Hin & _).
  revert tp Hin. now apply Forall_forall.
Qed.

Lemma filter_idempotent (A : Type) (p : A -> bool) (xs : list A) :
  filter p (filter p xs) = filter p xs.
Proof.
  induction xs as [|x xs IH]; simpl; auto.
  destruct (p x) eqn:E; simpl; [rewrite E|]; congruence.
Qed.

(** X19. The lookback filter is idempotent: applied to its own result,
    with the same window and conversion instant, it returns that result
    unchanged. *)
Theorem lookback_is_idempotent :
  forall (lookback_window : Z) touchpoints (conversion_date : Z) kept,
    apply_lookback_window fromisoformat lookback_window touchpoints conversion_date
    = Ok kept ->
    apply_lookback_window fromisoformat lookback_window kept conversion_date
    = Ok kept.
Proof.
  intros w touchpoints conv kept H. unfold apply_lookback_window in *.
  apply filterM_window in H. destruct H as (Hall & ->).
  apply filterM_window. split.
  - now apply filter_parses.
  - now rewrite filter_idempotent.
Qed.

Lemma filter_narrower (A : Type) (p q : A -> bool) (xs : list A) :
  (forall x, p x = true -> q x = true) ->
  filter p (filter q xs) = filter p xs.
Proof.
  intros Hpq. induction xs as [|x xs IH]; simpl; auto.
  destruct (q x) eqn:Eq; simpl.
  - destruct (p x); congruence.
  - destruct (p x) eqn:Ep; auto. apply Hpq in Ep. congruence.
Qed.

(** X20. Windows nest: filtering with a window after filtering with a
    window at least as long gives what the shorter window gives on the
    original sequence, so a shorter window never keeps a touchpoint that a
    longer one drops. *)
Theorem lookback_windows_nest :
  forall (shorter longer : Z) touchpoints (conversion_date : Z) kept,
    (shorter <= longer)%Z ->
    apply_lookback_window fromisoformat longer touchpoints conversion_date
    = Ok kept ->
    apply_lookback_window fromisoformat shorter kept conversion_date
    = apply_lookback_window fromisoformat shorter touchpoints conversion_date.
Proof.
  intros shorter longer touchpoints conv kept Hle H.
  unfold apply_lookback_window in *.
  apply filterM_window in H. destruct H as (Hall & ->).
  transitivity (Ok (filter (in_window fromisoformat
                              (conv - timedelta_days shorter)) touchpoints)).
  - apply filterM_window. split.
    + now apply filter_parses.
    + symmetry. apply filter_narrower. intros tp. unfold in_window.
      destruct (fromisoformat (timestamp tp)); auto.
      unfold timedelta_days. intros Hs. apply Z.leb_le in Hs. apply Z.leb_le. lia.
  - symmetry. apply filterM_window. split; auto.
Qed.

End LookbackProperties.

Section LookbackWitnesses.
Import Attribution.

Lemma lookback_keeps_touchpoints_witness :
  let parse := fun s : string =>
                 if String.eqb s "yesterday" then Raise ValueError
                 else Ok (timedelta_days (Z.of_nat (String.length s))) in
  let a := Build_Touchpoint 1 "google_ads" "2024-09-01T10:00:00" "click" "desktop" in
  let b := Build_Touchpoint 2 "facebook" "2024-09-05" "click" "mobile" in
  let c := Build_Touchpoint 3 "email" "2024" "click" "mobile" in
  let x := Build_Touchpoint 4 "direct" "yesterday" "click" "mobile" in
  (Forall (parses parse) [a; b; c] /\
   [a; b] = filter (in_window parse (timedelta_days 20 - timedelta_days 12))
                   [a; b; c]) /\
  raises (apply_lookback_window parse 12 [a; x] (timedelta_days 20)) = true.
Proof.
  intros parse a b c x. split.
  - destruct (@lookback_keeps_touchpoints_in_window parse 12%Z [a; b; c]
                (timedelta_days 20)) as (Hret & _).
    apply Hret. reflexivity.
  - destruct (@lookback_keeps_touchpoints_in_window parse 12%Z [a; x]
                (timedelta_days 20)) as (_ & Hraise).
    apply (Hraise x ValueError); [simpl; auto | reflexivity].
Defined.

Lemma lookback_is_idempotent_witness :
  let parse := fun s : string => Ok (timedelta_days (Z.of_nat (String.length s))) in
  let a := Build_Touchpoint 1 "google_ads" "2024-09-01T10:00:00" "click" "desktop" in
  let b := Build_Touchpoint 2 "facebook" "2024-09-05" "click" "mobile" in
  let c := Build_Touchpoint 3 "email" "2024" "click" "mobile" in
  apply_lookback_window parse 12 [a; b; c] (timedelta_days 20) = Ok [a; b] /\
  apply_lookback_window parse 12 [a; b] (timedelta_days 20) = Ok [a; b].
Proof.
  intros parse a b c. split; [reflexivity|].
  apply (@lookback_is_idempotent parse 12%Z [a; b; c] (timedelta_days 20) [a; b]).
  reflexivity.
Defined.

Lemma lookback_windows_nest_witness :
  let parse := fun s : string => Ok (timedelta_days (Z.of_nat (String.length s))) in
  let a := Build_Touchpoint 1 "google_ads" "2024-09-01T10:00:00" "click" "desktop" in
  let b := Build_Touchpoint 2 "facebook" "2024-09-05" "click" "mobile" in
  let c := Build_Touchpoint 3 "email" "2024" "click" "mobile" in
  apply_lookback_window parse 5 [a; b] (timedelta_days 20)
  = apply_lookback_window parse 5 [a; b; c] (timedelta_days 20).
Proof.
  intros parse a b c.
  apply (@lookback_windows_nest parse 5%Z 12%Z [a; b; c] (timedelta_days 20) [a; b]).
  - lia.
  - reflexivity.
Defined.

End LookbackWitnesses.

(** ** Further properties of the budget allocation *)

Section AllocationProperties.
Import Optimizer.
Local Open Scope string_scope.
Local Open Scope Q_scope.
Implicit Types (total_budget : Q) (channel_performance : dict (dict Q))
         (allocation : dict Allocation).

(** Rounding to the nearest integer moves a number by at most 1/2. *)
Lemma round_half_even_near (y : Q) :
  y - (1 # 2) <= inject_Z (round_half_even y) <= y + (1 # 2).
Proof.
  unfold round_half_even.
  pose proof (Qfloor_le y) as Hlo. pose proof (Qlt_floor y) as Hhi.
  rewrite inject_Z_plus in Hhi. change (inject_Z 1) with 1 in Hhi.
  destruct (Qlt_bool (y - inject_Z (Qfloor y)) (1 # 2)) eqn:E1.
  - apply Qlt_bool_true in E1. lra.
  - apply Qlt_bool_false in E1.
    destruct (Qlt_bool (1 # 2) (y - inject_Z (Qfloor y))) eqn:E2.
    + rewrite inject_Z_plus. change (inject_Z 1) with 1. lra.
    + apply Qlt_bool_false in E2.
      destruct (Z.even (Qfloor y)).
      * lra.
      * rewrite inject_Z_plus. change (inject_Z 1) with 1. lra.
Qed.

(** [round(x, 2)] is a whole number of hundredths within 0.005 of [x]. *)
Lemma round_2_near (x : Q) :
  x - (1 # 200) <= round x 2 <= x + (1 # 200) /\
  exists cents : Z, round x 2 == inject_Z cents / 100.
Proof.
  unfold round. change (inject_Z (10 ^ Z.of_nat 2)) with 100.
  split; [|eexists; reflexivity].
  pose proof (round_half_even_near (x * 100)) as H.
  generalize dependent (inject_Z (round_half_even (x * 100))). intros z H.
  split.
  - apply Qle_shift_div_l; lra.
  - apply Qle_shift_div_r; lra.
Qed.

(** What the second loop stores for each channel. *)
Lemma proportional_allocation_entries total_budget channel_performance allocation :
  0 < total_budget ->
  proportional_allocation total_budget channel_performance = Ok allocation ->
  forall channel a,
    In (channel, a) allocation ->
    exists share,
      total_budget * (10 # 100) <= share <= total_budget * (40 # 100) /\
      budget a = round share 2.
Proof.
  intros Hpos Halloc. unfold proportional_allocation in Halloc.
  set (P := fun (channel : string) (a : Allocation) =>
              exists share,
                total_budget * (10 # 100) <= share <= total_budget * (40 # 100) /\
                budget a = round share 2).
  assert (Hbody : forall cs a,
             In cs (fst (score_channels channel_performance)) ->
             allocate_channel total_budget
               (snd (score_channels channel_performance)) (snd cs) = Ok a ->
             P (fst cs) a).
  { intros [c s] a' _ Ha. cbn [fst snd] in *.
    destruct (@allocate_channel_budget _ _ _ _ Ha) as (share & Hshare & Hb).
    exists share. split; auto.
    now apply (@constrained_budget_bounds _ _ _ _ Hpos Hshare). }
  apply (@allocation_loop_entries total_budget _ P _ Hbody empty allocation Halloc).
  intros k a' [].
Qed.

(** X21. Before the correction, the budget stored for a channel is a
    whole number of hundredths and lies within 0.005 of the interval
    [0.10 * total, 0.40 * total], for every total above 0. *)
Theorem stored_budget_is_rounded_share :
  forall total_budget channel_performance allocation,
    0 < total_budget ->
    proportional_allocation total_budget channel_performance = Ok allocation ->
    forall channel a,
      get allocation channel = Some a ->
      total_budget * (10 # 100) - (1 # 200) <= budget a
      /\ budget a <= total_budget * (40 # 100) + (1 # 200)
      /\ exists cents : Z, budget a == inject_Z cents / 100.
Proof.
  intros total_budget channel_performance allocation Hpos Halloc channel a Hget.
  apply get_in in Hget.
  destruct (proportional_allocation_entries _ Hpos Halloc _ _ Hget)
    as (share & Hshare & ->).
  destruct (round_2_near share) as (Hnear & Hcents).
  repeat split; try lra. exact Hcents.
Qed.

Lemma stored_budget_witness :
  let perf := [("google_ads", [("roas", 45 # 10); ("cvr", 3 # 100);
                               ("volume_potential", 8 # 10)]);
               ("facebook", [("roas", 28 # 10); ("cvr", 2 # 100);
                             ("volume_potential", 9 # 10)]);
               ("linkedin", [("roas", 52 # 10); ("cvr", 4 # 100);
                             ("volume_potential", 5 # 10)])] in
  exists allocation a,
    proportional_allocation 10000 perf = Ok allocation /\
    get allocation "facebook" = Some a /\
    10000 * (10 # 100) - (1 # 200) <= budget a.
Proof.
  intros perf. eexists. eexists.
  split; [vm_compute; reflexivity|]. split; [reflexivity|].
  refine (proj1 (@stored_budget_is_rounded_share 10000 perf _ _ _ "facebook" _ _));
    [reflexivity | vm_compute; reflexivity | reflexivity].
Defined.

End AllocationProperties.

Section CorrectionProperties.
Import Optimizer.
Local Open Scope string_scope.
Local Open Scope Q_scope.
Implicit Types (total_budget : Q) (channel_performance : dict (dict Q))
         (allocation : dict Allocation).


Lemma max_by_largest (A : Type) (key : A -> Q) (xs : list A) (m : A) :
  max_by key xs = Ok m -> In m xs /\ forall x, In x xs -> key x <= key m.
Proof.
  destruct xs as [|x xs]; [discriminate|]. cbn [max_by]. intros [= <-].
  apply max_from_largest.
Qed.



(** X23. An allocation that the allocator returns has exactly one entry
    for each channel of its input. *)
Theorem allocation_has_one_entry_per_channel :
  forall total_budget channel_performance final,
    calculate_optimal_budget_allocation total_budget channel_performance = Ok final ->
    NoDup (keys final) /\
    forall c, In c (keys final) <-> In c (keys channel_performance).
Proof.
  intros total_budget channel_performance final.
  unfold calculate_optimal_budget_allocation.
  destruct (proportional_allocation total_budget channel_performance)
    as [before|e] eqn:Hbefore; [|discriminate].
  cbn [bind]. unfold proportional_allocation in Hbefore.
  destruct (allocation_loop_keys _ _ _ _ Hbefore) as (Hnd & Hkeys).
  specialize (Hnd (NoDup_nil _)).
  assert (Hkeys' : forall c, In c (keys before) <-> In c (keys channel_performance)).
  { intros c. rewrite Hkeys, (proj2 (score_channels_keys channel_performance) c).
    simpl. tauto. }
  destruct (negb (Qeq_bool (total_allocated before) total_budget)).
  - destruct (max_by (fun ka : string * Allocation => budget (snd ka)) before)
      as [[largest a]|e] eqn:Em; [|discriminate].
    apply max_by_largest in Em. destruct Em as (Hin & _).
    cbn [bind fst snd]. unfold add_budget, getitem.
    rewrite (@in_get _ _ _ _ Hnd Hin). cbn [bind]. intros [= <-]. split.
    + now apply keys_setitem_NoDup.
    + intros c. rewrite keys_setitem, <- Hkeys'. split; [|tauto].
      intros [->|H]; auto. change largest with (fst (largest, a)).
      apply in_map. exact Hin.
  - intros [= <-]. split; auto.
Qed.

Lemma allocation_entries_witness :
  let perf := [("google_ads", [("roas", 45 # 10)]); ("facebook", [("roas", 28 # 10)]);
               ("linkedin", [("roas", 52 # 10)])] in
  exists final,
    calculate_optimal_budget_allocation 350000 perf = Ok final /\
    NoDup (keys final).
Proof.
  intros perf. eexists. split; [vm_compute; reflexivity|].
  refine (proj1 (@allocation_has_one_entry_per_channel 350000 perf _ _)).
  vm_compute. reflexivity.
Defined.

End CorrectionProperties.

Section FewChannels.
Import Optimizer.
Local Open Scope string_scope.
Local Open Scope Q_scope.
Implicit Types (total_budget : Q) (channel_performance : dict (dict Q))
         (allocation : dict Allocation).




End FewChannels.

(** ** Bid adjustments and frequency capping *)

Section PerKeyLoops.
Variables (A V : Type) (f : string -> A -> V).

(** A loop that stores [f k x] under every key [k] of its input. *)
Lemma per_key_loop_other (xs : dict A) : forall (d0 : dict V) k,
  ~ In k (keys xs) ->
  get (fold_left (fun acc kx => setitem acc (fst kx) (f (fst kx) (snd kx))) xs d0) k
  = get d0 k.
Proof.
  induction xs as [|[k0 x0] xs IH]; intros d0 k Hk; simpl; auto.
  rewrite IH by (intro; apply Hk; now right).
  apply get_setitem_other. intros ->. apply Hk. now left.
Qed.

Lemma per_key_loop_get (xs : dict A) : forall (d0 : dict V) k x,
  NoDup (keys xs) -> get xs k = Some x ->
  get (fold_left (fun acc kx => setitem acc (fst kx) (f (fst kx) (snd kx))) xs d0) k
  = Some (f k x).
Proof.
  induction xs as [|[k0 x0] xs IH]; intros d0 k x Hnd Hget; [discriminate|].
  inversion Hnd as [|? ? Hnotin Hnd']; subst.
  simpl in Hget |- *. destruct (String.eqb k k0) eqn:E.
  - apply String.eqb_eq in E. subst k0. injection Hget as ->.
    rewrite per_key_loop_other by exact Hnotin. apply get_setitem_same.
  - now apply IH.
Qed.

Lemma per_key_loop_keys (xs : dict A) : forall (d0 : dict V),
  (NoDup (keys d0) ->
   NoDup (keys (fold_left (fun acc kx => setitem acc (fst kx) (f (fst kx) (snd kx)))
                          xs d0))) /\
  forall k,
    In k (keys (fold_left (fun acc kx => setitem acc (fst kx) (f (fst kx) (snd kx)))
                          xs d0))
    <-> In k (keys d0) \/ In k (keys xs).
Proof.
  induction xs as [|[k0 x0] xs IH]; intros d0; simpl.
  - split; auto. tauto.
  - destruct (IH (setitem d0 k0 (f k0 x0))) as (Hnd & Hk). split.
    + intros H. apply Hnd. now apply keys_setitem_NoDup.
    + intros k. rewrite Hk, keys_setitem. intuition congruence.
Qed.

End PerKeyLoops.

Section BidProperties.
Import Optimizer.
Local Open Scope string_scope.
Local Open Scope Q_scope.








End BidProperties.

Section CappingProperties.
Import Optimizer.
Local Open Scope string_scope.

Lemma fold_left_pointwise (A B : Type) (f g : A -> B -> A) (xs : list B) :
  (forall a x, f a x = g a x) -> forall a, fold_left f xs a = fold_left g xs a.
Proof.
  intros Hfg. induction xs as [|x xs IH]; intros a; simpl; auto.
  now rewrite Hfg, IH.
Qed.

Lemma capping_as_per_key_loop (user_impressions : dict (dict Z)) (cap_per_week : Z) :
  implement_frequency_capping user_impressions cap_per_week
  = fold_left (fun acc kx => setitem acc (fst kx)
                               ((fun _ => cap_entry cap_per_week) (fst kx) (snd kx)))
              user_impressions empty.
Proof.
  unfold implement_frequency_capping. apply fold_left_pointwise.
  intros acc [user imp]. unfold cap_entry. cbn [fst snd].
  destruct (cap_per_week <=? getdefault 0%Z imp "week_total")%Z; reflexivity.
Qed.

(** X27. Frequency capping classifies every user of its input exactly
    once: a user whose weekly total (0 when the record has none) reaches
    the cap is 'capped', and every other user is 'active' with a remaining
    count that is above 0 and adds up with the impressions to the cap. *)
Theorem frequency_capping_classifies_every_user :
  forall (user_impressions : dict (dict Z)) (cap_per_week : Z),
    NoDup (keys user_impressions) ->
    NoDup (keys (implement_frequency_capping user_impressions cap_per_week)) /\
    (forall u, In u (keys (implement_frequency_capping user_impressions cap_per_week))
               <-> In u (keys user_impressions)) /\
    (forall user impressions,
        get user_impressions user = Some impressions ->
        let weekly := getdefault 0%Z impressions "week_total" in
        ((cap_per_week <= weekly)%Z ->
         exists action,
           get (implement_frequency_capping user_impressions cap_per_week) user
           = Some (capped weekly cap_per_week action)) /\
        ((weekly < cap_per_week)%Z ->
         exists remaining action,
           get (implement_frequency_capping user_impressions cap_per_week) user
           = Some (active weekly remaining action) /\
           (0 < remaining)%Z /\ (weekly + remaining = cap_per_week)%Z)).
Proof.
  intros user_impressions cap_per_week Hnd.
  rewrite capping_as_per_key_loop.
  destruct (per_key_loop_keys (fun _ : string => cap_entry cap_per_week)
                              user_impressions empty) as (Hk1 & Hk2).
  split; [|split].
  - apply Hk1. constructor.
  - intros u. rewrite (Hk2 u). simpl. tauto.
  - intros user impressions Hget weekly.
    rewrite (per_key_loop_get (fun _ : string => cap_entry cap_per_week)
               user_impressions empty user Hnd Hget).
    unfold cap_entry. fold weekly. split; intros Hw.
    + rewrite (proj2 (Z.leb_le _ _) Hw). eexists. reflexivity.
    + rewrite (proj2 (Z.leb_gt _ _) Hw). eexists. eexists.
      split; [reflexivity|]. lia.
Qed.

Lemma frequency_capping_witness :
  let users := [("u1", [("week_total", 12%Z)]); ("u2", [("week_total", 3%Z)]);
                ("u3", [])] in
  exists remaining action,
    get (implement_frequency_capping users 10) "u3"
    = Some (active 0 remaining action) /\
    (0 < remaining)%Z /\ (0 + remaining = 10)%Z.
Proof.
  intros users.
  destruct (@frequency_capping_classifies_every_user users 10%Z) as (_ & _ & H).
  - repeat constructor; simpl; intuition discriminate.
  - destruct (H "u3" []) as (_ & Hactive); [reflexivity|].
    apply Hactive. reflexivity.
Defined.

End CappingProperties.

(** ** The campaign simulator *)

Section SimulatorProperties.
Import Simulator.
Local Open Scope string_scope.
Local Open Scope Q_scope.
Implicit Types (noise : nat -> Q) (now : nat -> Z) (channel : string)
         (budget : Q) (days : Z).

Lemma mapM_pointwise (A B : Type) (f : A -> result B) (P : A -> B -> Prop)
      (xs : list A) :
  (forall x, In x xs -> exists y, f x = Ok y /\ P x y) ->
  exists ys, mapM f xs = Ok ys /\ Forall2 P xs ys.
Proof.
  induction xs as [|x xs IH]; intros Hf.
  - exists []. split; [reflexivity | constructor].
  - destruct (Hf x (or_introl eq_refl)) as (y & Hy & HP).
    destruct IH as (ys & Hys & HF); [intros x' Hx'; apply Hf; now right|].
    exists (y :: ys). split; [|now constructor].
    cbn [mapM]. rewrite Hy. cbn [bind]. rewrite Hys. reflexivity.
Qed.

(** Every channel of the table has a cost per mille other than 0 and a
    typical tier that is a key of the subscription table. *)
Lemma known_channel channel (ch : ChannelProfile) :
  get channels channel = Some ch ->
  ~ cpm ch == 0 /\
  exists sub, getitem Metrics.subscriptions (typical_tier ch) = Ok sub.
Proof.
  unfold channels, _define_channels. simpl.
  repeat match goal with
         | |- context [String.eqb channel ?k] => destruct (String.eqb channel k)
         end;
    intros [= <-]; (split; [discriminate | eexists; reflexivity]).
Qed.

Lemma guarded_div_counts (z : Z) (a : Q) :
  guarded_div (0 <? z)%Z a (inject_Z z)
  = Ok (if (0 <? z)%Z then a / inject_Z z else 0).
Proof.
  unfold guarded_div. destruct (0 <? z)%Z eqn:E; [|reflexivity].
  apply Z.ltb_lt in E. apply Qdiv_py_ok. apply inject_Z_nonzero. lia.
Qed.

Lemma guarded_div_budget (a b : Q) :
  guarded_div (Qlt_bool 0 b) a b = Ok (if Qlt_bool 0 b then a / b else 0).
Proof.
  unfold guarded_div. destruct (Qlt_bool 0 b) eqn:E; [|reflexivity].
  apply Qlt_bool_true in E. apply Qdiv_py_ok. lra.
Qed.

(** One day of a campaign on a channel of the table. *)
Lemma simulate_day_row noise now channel (ch : ChannelProfile) budget days (day : nat) :
  (0 < days)%Z ->
  get channels channel = Some ch ->
  exists row sub,
    simulate_day noise now channel ch budget days day = Ok row /\
    getitem Metrics.subscriptions (typical_tier ch) = Ok sub /\
    Row.day row = (Z.of_nat day + 1)%Z /\
    Row.channel row = channel /\
    Row.spend row = budget / inject_Z days /\
    Row.revenue row
    = inject_Z (Row.conversions row) * Metrics.monthly_price sub
      * Metrics.avg_lifetime_months sub /\
    Row.ctr row = (if (0 <? Row.impressions row)%Z
                   then inject_Z (Row.clicks row) / inject_Z (Row.impressions row)
                   else 0) /\
    Row.cvr row = (if (0 <? Row.clicks row)%Z
                   then inject_Z (Row.conversions row) / inject_Z (Row.clicks row)
                   else 0).
Proof.
  intros Hdays Hch.
  destruct (@known_channel channel ch Hch) as (Hcpm & sub & Hsub).
  unfold simulate_day.
  rewrite (Qdiv_py_ok budget (b := inject_Z days))
    by (apply inject_Z_nonzero; lia).
  cbn [bind]. rewrite (Qdiv_py_ok _ Hcpm). cbn [bind]. rewrite Hsub. cbn [bind].
  rewrite !guarded_div_counts. cbn [bind]. rewrite guarded_div_budget.
  match goal with
  | |- context [if (0 <? ?z)%Z then c <- Qdiv_py ?a (inject_Z ?z) ;; _ else Ok 0] =>
      replace (if (0 <? z)%Z then c <- Qdiv_py a (inject_Z z) ;; Ok (c * 1000)
               else Ok 0)
        with (Ok (if (0 <? z)%Z then a / inject_Z z * 1000 else 0))
  end.
  2:{ match goal with |- context [(0 <? ?z)%Z] => destruct (0 <? z)%Z eqn:E end;
        [|reflexivity].
      apply Z.ltb_lt in E. rewrite Qdiv_py_ok by (apply inject_Z_nonzero; lia).
      reflexivity. }
  cbn [bind].
  eexists. exists sub. split; [reflexivity|].
  cbn [Row.day Row.channel Row.spend Row.revenue Row.conversions Row.ctr
       Row.cvr Row.impressions Row.clicks].
  repeat split; reflexivity.
Qed.

End SimulatorProperties.

Section SimulatorClaims.
Import Simulator.
Local Open Scope string_scope.
Local Open Scope Q_scope.
Implicit Types (noise : nat -> Q) (now : nat -> Z) (channel : string)
         (budget : Q) (days : Z).

Lemma Forall2_nth_error (A B : Type) (P : A -> B -> Prop) (xs : list A) (ys : list B) :
  Forall2 P xs ys ->
  List.length ys = List.length xs /\
  forall i y, nth_error ys i = Some y -> exists x, nth_error xs i = Some x /\ P x y.
Proof.
  induction 1 as [|x y xs ys HP HF (Hlen & IH)].
  - split; [reflexivity|]. intros [|i] y; discriminate.
  - split; [simpl; congruence|]. intros [|i] y' Hy; simpl in *.
    + injection Hy as <-. exists x. auto.
    + now apply IH.
Qed.

Lemma unknown_channel_raises noise now channel budget days :
  ~ In channel (keys channels) ->
  simulate_campaign noise now channel budget days = Raise ValueError.
Proof.
  intros Hnot. unfold simulate_campaign.
  destruct (contains channels channel) eqn:E; [|reflexivity].
  apply contains_in_keys in E. contradiction.
Qed.

(** The rows of a campaign on a channel of the table. *)
Lemma simulate_campaign_rows noise now channel budget days :
  In channel (keys channels) ->
  exists rows ch sub,
    simulate_campaign noise now channel budget days = Ok rows /\
    get channels channel = Some ch /\
    getitem Metrics.subscriptions (typical_tier ch) = Ok sub /\
    List.length rows = Z.to_nat days /\
    forall i row,
      nth_error rows i = Some row ->
      Row.day row = (Z.of_nat i + 1)%Z /\
      Row.channel row = channel /\
      Row.spend row = budget / inject_Z days /\
      Row.revenue row
      = inject_Z (Row.conversions row) * Metrics.monthly_price sub
        * Metrics.avg_lifetime_months sub /\
      Row.ctr row = (if (0 <? Row.impressions row)%Z
                     then inject_Z (Row.clicks row) / inject_Z (Row.impressions row)
                     else 0) /\
      Row.cvr row = (if (0 <? Row.clicks row)%Z
                     then inject_Z (Row.conversions row) / inject_Z (Row.clicks row)
                     else 0).
Proof.
  intros Hin. unfold simulate_campaign.
  rewrite (proj2 (contains_in_keys channels channel) Hin). cbn [negb].
  destruct (get channels channel) as [ch|] eqn:Hch;
    [|apply get_some_in_keys in Hin; congruence].
  unfold getitem at 1. rewrite Hch. cbn [bind].
  destruct (@known_channel channel ch Hch) as (_ & sub & Hsub).
  destruct (Z_lt_le_dec 0 days) as [Hdays|Hdays].
  - destruct (@mapM_pointwise _ _ (simulate_day noise now channel ch budget days)
                (fun day row =>
                   Row.day row = (Z.of_nat day + 1)%Z /\
                   Row.channel row = channel /\
                   Row.spend row = budget / inject_Z days /\
                   Row.revenue row
                   = inject_Z (Row.conversions row) * Metrics.monthly_price sub
                     * Metrics.avg_lifetime_months sub /\
                   Row.ctr row
                   = (if (0 <? Row.impressions row)%Z
                      then inject_Z (Row.clicks row) / inject_Z (Row.impressions row)
                      else 0) /\
                   Row.cvr row
                   = (if (0 <? Row.clicks row)%Z
                      then inject_Z (Row.conversions row) / inject_Z (Row.clicks row)
                      else 0))
                (seq 0 (Z.to_nat days))) as (rows & Hrows & HF).
    { intros day _.
      destruct (@simulate_day_row noise now channel ch budget days day Hdays Hch)
        as (row & sub' & Hrow & Hsub' & Hprops).
      rewrite Hsub in Hsub'. injection Hsub' as <-. exists row. split; auto. }
    exists rows, ch, sub. split; [exact Hrows|]. split; [reflexivity|].
    split; [exact Hsub|].
    destruct (Forall2_nth_error HF) as (Hlen & Hnth).
    split; [now rewrite Hlen, length_seq|].
    intros i row Hi. destruct (Hnth i row Hi) as (day & Hday & HP).
    rewrite nth_error_seq in Hday.
    destruct (i <? Z.to_nat days)%nat; [|discriminate].
    injection Hday as <-. exact HP.
  - replace (Z.to_nat days) with 0%nat by lia. cbn [seq mapM].
    exists [], ch, sub. split; [reflexivity|]. split; [reflexivity|].
    split; [exact Hsub|]. split; [reflexivity|]. intros [|i] row; discriminate.
Qed.

Lemma simulate_channels_unknown noise now days
      (budget_allocation : list (string * Q)) : forall offset : nat,
  (exists c, In c (keys budget_allocation) /\ ~ In c (keys channels)) ->
  simulate_channels noise now budget_allocation days offset = Raise ValueError.
Proof.
  induction budget_allocation as [|[c0 b0] rest IH]; intros offset (c & Hc & Hun).
  - contradiction.
  - cbn [simulate_channels].
    destruct (in_dec string_dec c0 (keys channels)) as [Hknown|Hunknown].
    + destruct (@simulate_campaign_rows (fun i => noise (offset + i)%nat)
                  (fun i => now (offset + i)%nat) c0 b0 days Hknown)
        as (rows & _ & _ & -> & _).
      cbn [bind]. rewrite IH; [reflexivity|].
      exists c. split; auto. destruct Hc as [Hc|Hc]; auto.
      simpl in Hc. subst. contradiction.
    + now rewrite unknown_channel_raises.
Qed.

(** X28. A channel that is not in the channel table makes
    [simulate_campaign] raise [ValueError]; so does
    [simulate_multi_channel_campaign] when the first channel of the
    allocation is not in the table, and when the allocation is empty; and
    with such a channel anywhere in the allocation it does not return. *)
Theorem simulator_rejects_unknown_channels :
  forall noise now days,
    (forall channel budget,
        ~ In channel (keys channels) ->
        simulate_campaign noise now channel budget days = Raise ValueError) /\
    (forall channel budget (rest : dict Q),
        ~ In channel (keys channels) ->
        simulate_multi_channel_campaign noise now ((channel, budget) :: rest) days
        = Raise ValueError) /\
    (forall budget_allocation : dict Q,
        (exists c, In c (keys budget_allocation) /\ ~ In c (keys channels)) ->
        raises (simulate_multi_channel_campaign noise now budget_allocation days)
        = true) /\
    simulate_multi_channel_campaign noise now [] days = Raise ValueError.
Proof.
  intros noise now days. split; [|split; [|split]].
  - intros channel budget Hun. now apply unknown_channel_raises.
  - intros channel budget rest Hun.
    unfold simulate_multi_channel_campaign. cbn [simulate_channels].
    now rewrite unknown_channel_raises.
  - intros budget_allocation Hun. unfold simulate_multi_channel_campaign.
    now rewrite simulate_channels_unknown.
  - reflexivity.
Qed.

Lemma simulator_rejects_witness :
  simulate_campaign (fun _ => 1) (fun _ => 0%Z) "tiktok" 25000 30 = Raise ValueError /\
  simulate_multi_channel_campaign (fun _ => 1) (fun _ => 0%Z)
    [("tiktok", 25000); ("google_ads", 150000)] 30 = Raise ValueError /\
  raises (simulate_multi_channel_campaign (fun _ => 1) (fun _ => 0%Z)
            [("google_ads", 150000); ("tiktok", 25000)] 30) = true.
Proof.
  destruct (simulator_rejects_unknown_channels (fun _ => 1) (fun _ => 0%Z) 30)
    as (Hone & Hfirst & Hany & _).
  assert (Hun : ~ In "tiktok" (keys channels))
    by (simpl; intuition discriminate).
  split; [|split].
  - now apply Hone.
  - now apply Hfirst.
  - apply Hany. exists "tiktok". split; [simpl; auto | exact Hun].
Defined.

(** X29. Whenever [simulate_campaign] returns, whatever the draws of the
    noise, the channel is one of the table and there is one row per day
    ([days] rows, none when [days <= 0]): row [i] is day [i + 1] on that
    channel with a spend of [budget / days], and over a campaign of one or
    more days the spends add up to the budget. *)
Theorem campaign_spends_the_budget :
  forall noise now channel budget days rows,
    simulate_campaign noise now channel budget days = Ok rows ->
    In channel (keys channels) /\
    List.length rows = Z.to_nat days /\
    (forall i row,
        nth_error rows i = Some row ->
        Row.day row = (Z.of_nat i + 1)%Z /\
        Row.channel row = channel /\
        Row.spend row = budget / inject_Z days) /\
    ((0 < days)%Z -> Qsum (map Row.spend rows) == budget).
Proof.
  intros noise now channel budget days rows Hret.
  destruct (in_dec string_dec channel (keys channels)) as [Hin|Hunknown].
  2:{ rewrite unknown_channel_raises in Hret by exact Hunknown. discriminate. }
  destruct (@simulate_campaign_rows noise now channel budget days Hin)
    as (rows' & ch & sub & Hrows & _ & _ & Hlen & Hnth).
  rewrite Hret in Hrows. injection Hrows as <-.
  split; [exact Hin|]. split; [exact Hlen|]. split.
  - intros i row Hi. destruct (Hnth i row Hi) as (H1 & H2 & H3 & _). auto.
  - intros Hdays.
    assert (Hmap : map Row.spend rows = map (fun _ => budget / inject_Z days) rows).
    { apply nth_error_ext. intros i. rewrite !nth_error_map.
      destruct (nth_error rows i) as [row|] eqn:Hi; [|reflexivity].
      destruct (Hnth i row Hi) as (_ & _ & H3 & _). simpl. now rewrite H3. }
    rewrite Hmap, Qsum_const. unfold Qlen. rewrite Hlen, Z2Nat.id by lia.
    field. apply inject_Z_nonzero. lia.
Qed.

Lemma campaign_spends_the_budget_witness :
  exists rows,
    simulate_campaign (fun _ => 1) (fun _ => 0%Z) "linkedin" 100000 3 = Ok rows /\
    List.length rows = 3%nat /\
    Qsum (map Row.spend rows) == 100000.
Proof.
  destruct (simulate_campaign (fun _ => 1) (fun _ => 0%Z) "linkedin" 100000 3)
    as [rows|e] eqn:Hret; [|vm_compute in Hret; discriminate Hret].
  destruct (@campaign_spends_the_budget (fun _ => 1) (fun _ => 0%Z) "linkedin"
              100000 3%Z rows Hret) as (_ & Hlen & _ & Hsum).
  exists rows. split; [reflexivity|]. split; [exact Hlen|]. apply Hsum. lia.
Defined.

Lemma ltv_value tier (sub : Metrics.EmployerSubscription) (modifier : Q) :
  getitem Metrics.subscriptions tier = Ok sub ->
  returned_value (Metrics.calculate_ltv tier modifier)
  = Some (Metrics.Fin (Metrics.monthly_price sub * Metrics.avg_lifetime_months sub
                       * modifier)).
Proof.
  intros Hsub. unfold Metrics.calculate_ltv, contains.
  unfold getitem in Hsub |- *.
  destruct (get Metrics.subscriptions tier) as [s|]; [|discriminate].
  injection Hsub as ->. reflexivity.
Qed.

(** X30. In every row that [simulate_campaign] returns, the revenue is
    the number of conversions times the lifetime value that
    [calculate_ltv] gives for the channel's typical tier, and the listed
    click-through and conversion rates are the ratios of the row's own
    counts, or 0 when the denominator count is not above 0. *)
Theorem campaign_rows_are_consistent :
  forall noise now channel budget days rows row,
    simulate_campaign noise now channel budget days = Ok rows ->
    In row rows ->
    exists ch ltv,
      get channels channel = Some ch /\
      returned_value (Metrics.calculate_ltv (typical_tier ch) 1)
      = Some (Metrics.Fin ltv) /\
      Row.revenue row == inject_Z (Row.conversions row) * ltv /\
      Row.ctr row = (if (0 <? Row.impressions row)%Z
                     then inject_Z (Row.clicks row) / inject_Z (Row.impressions row)
                     else 0) /\
      Row.cvr row = (if (0 <? Row.clicks row)%Z
                     then inject_Z (Row.conversions row) / inject_Z (Row.clicks row)
                     else 0).
Proof.
  intros noise now channel budget days rows row Hrows Hin.
  destruct (in_dec string_dec channel (keys channels)) as [Hknown|Hunknown].
  - destruct (@simulate_campaign_rows noise now channel budget days Hknown)
      as (rows' & ch & sub & Hrows' & Hch & Hsub & _ & Hnth).
    rewrite Hrows in Hrows'. injection Hrows' as <-.
    apply In_nth_error in Hin. destruct Hin as (i & Hi).
    destruct (Hnth i row Hi) as (_ & _ & _ & Hrev & Hctr & Hcvr).
    exists ch. eexists. split; [exact Hch|].
    split; [apply (@ltv_value _ sub 1 Hsub)|].
    split; [rewrite Hrev; ring|]. split; assumption.
  - rewrite unknown_channel_raises in Hrows by exact Hunknown. discriminate.
Qed.

Lemma campaign_rows_witness :
  exists rows row ch ltv,
    simulate_campaign (fun _ => 1) (fun _ => 0%Z) "facebook" 5000 1 = Ok rows /\
    In row rows /\
    get channels "facebook" = Some ch /\
    returned_value (Metrics.calculate_ltv (typical_tier ch) 1)
    = Some (Metrics.Fin ltv) /\
    Row.revenue row == inject_Z (Row.conversions row) * ltv.
Proof.
  destruct (@simulate_campaign_rows (fun _ => 1) (fun _ => 0%Z) "facebook" 5000 1%Z)
    as (rows & _ & _ & Hrows & _ & _ & Hlen & _); [simpl; auto|].
  destruct rows as [|row rest]; [discriminate Hlen|].
  destruct (@campaign_rows_are_consistent (fun _ => 1) (fun _ => 0%Z) "facebook"
              5000 1%Z (row :: rest) row Hrows (or_introl eq_refl))
    as (ch & ltv & H1 & H2 & H3 & _).
  exists (row :: rest), row, ch, ltv.
  split; [exact Hrows|]. split; [now left|]. auto.
Defined.

End SimulatorClaims.
